(** * Canonical uid indexing and the tap-tap utility cache store

    A shallow embedding of [activitysim/core/pathbuilder_cache.py]:
    the [TapTapUidCalculator] (mixed-radix uids over the segmentation
    attributes and the origin/destination taps), the [TVPBCache]
    store (open / extend / flush / close over an in-memory table, a
    memory-mapped static file and a feather dynamic file) and the
    [memo] context manager.

    Python exceptions are results, numpy [int] arrays are 64-bit with
    wrap-around, dictionaries that are iterated are association lists
    in insertion order, the file system and the injected buffers are
    finite maps. *)

From Stdlib Require Import ZArith List Bool Lia.
From stdpp Require Import base option list gmap strings.
Import ListNotations.


(** ** Python values, exceptions, results *)

(** Attribute values and tap ids: integers or strings
    (e.g. [0], ['AM'], ['walk'], tap id [10]). *)
Inductive value : Type :=
  | VInt (n : Z)
  | VStr (s : string).

#[global] Instance value_eq_dec : EqDecision value.
Proof. solve_decision. Defined.

(** The exceptions the modelled code can raise.  [NonScalar] is not a
    Python exception: it marks [Series.at] returning a Series instead of
    a scalar (duplicated label), from which the source computes no
    integer uid; the model stops there. *)
Inductive exn : Type :=
  | AssertionError
  | KeyError
  | AttributeError
  | TypeError
  | ValueError
  | InvalidIndexError
  | RuntimeError
  | NonScalar.

Inductive result (A : Type) : Type :=
  | Ok (a : A)
  | Raise (e : exn).
Arguments Ok {A} a.
Arguments Raise {A} e.

#[global] Instance result_ret : MRet result := fun A a => Ok a.
#[global] Instance result_bind : MBind result := fun A B f m =>
  match m with
  | Ok a => f a
  | Raise e => Raise e
  end.

(** [for x in l: acc = f(acc, x)] where [f] may raise. *)
Fixpoint foldM {A B : Type} (f : A -> B -> result A) (l : list B) (acc : A)
  : result A :=
  match l with
  | [] => Ok acc
  | x :: l' => acc' ← f acc x; foldM f l' acc'
  end.

(** ** Insertion-ordered dictionaries *)

Abbreviation odict V := (list (string * V)).

Fixpoint dict_get {V : Type} (k : string) (d : odict V) : option V :=
  match d with
  | [] => None
  | (k', v) :: d' => if String.eqb k k' then Some v else dict_get k d'
  end.

(** [d[k] = v]: an existing key keeps its position, a new key goes last. *)
Fixpoint dict_set {V : Type} (k : string) (v : V) (d : odict V) : odict V :=
  match d with
  | [] => [(k, v)]
  | (k', v') :: d' =>
      if String.eqb k k' then (k, v) :: d' else (k', v') :: dict_set k v d'
  end.

Definition dict_keys {V : Type} (d : odict V) : list string := map fst d.
Definition dict_values {V : Type} (d : odict V) : list V := map snd d.

(** A dictionary built by successive assignments, as a dict comprehension
    or a loop of [d[k] = v] does. *)
Definition dict_of_pairs {V : Type} (kvs : list (string * V)) : odict V :=
  fold_left (fun d kv => dict_set (fst kv) (snd kv) d) kvs [].

(** ** numpy and pandas pieces *)

(** An element of a numpy array of uids: an [int64], or NaN once a float
    entered the computation.  (When one element is NaN, numpy holds the
    whole array as float64; the model keeps the other elements as exact
    integers, which agree with float64 below 2^53.) *)
Inductive cell : Type :=
  | Int (z : Z)
  | NaN.

#[global] Instance cell_eq_dec : EqDecision cell.
Proof. solve_decision. Defined.

(** Two's complement wrap-around of numpy's [int64]. *)
Definition wrap64 (z : Z) : Z := ((z + 2 ^ 63) mod 2 ^ 64 - 2 ^ 63)%Z.

Definition cell_mul (a b : cell) : cell :=
  match a, b with
  | Int x, Int y => Int (wrap64 (x * y))
  | _, _ => NaN
  end.

Definition cell_add (a b : cell) : cell :=
  match a, b with
  | Int x, Int y => Int (wrap64 (x + y))
  | _, _ => NaN
  end.

(** [pd.Series(range(len(v)), index=v)]: the Series is determined by its
    index labels [v]; the label at position [i] maps to [i]. *)
Abbreviation Series := (list value).

(** Positions of a label, counted from [i]. *)
Fixpoint positions (key : value) (s : Series) (i : Z) : list Z :=
  match s with
  | [] => []
  | x :: s' =>
      if decide (x = key) then i :: positions key s' (i + 1)
      else positions key s' (i + 1)
  end.

(** [s.max()]: NaN for an empty Series. *)
Definition Series_max (s : Series) : cell :=
  match s with
  | [] => NaN
  | _ :: _ => Int (Z.of_nat (length s) - 1)
  end.

(** [s.at[key]] *)
Definition Series_at (s : Series) (key : value) : result Z :=
  match positions key s 0 with
  | [] => Raise KeyError
  | [i] => Ok i
  | _ :: _ :: _ => Raise NonScalar
  end.

Definition is_unique (s : Series) : bool := bool_decide (NoDup s).

(** [col.map(s)]: labels of [col] looked up in [s]; a label that [s]
    lacks maps to NaN; an index with a duplicated label cannot be
    reindexed. *)
Definition Series_map (col : list value) (s : Series) : result (list cell) :=
  if is_unique s then
    Ok (map (fun v => match positions v s 0 with
                      | i :: _ => Int i
                      | [] => NaN
                      end) col)
  else Raise InvalidIndexError.

(** [itertools.product] of the lists [ls]: the rightmost list advances
    fastest. *)
Fixpoint itertools_product {A : Type} (ls : list (list A)) : list (list A) :=
  match ls with
  | [] => [[]]
  | l :: ls' => flat_map (fun x => map (cons x) (itertools_product ls')) l
  end.

(** [np.arange(n)] *)
Definition arange (n : nat) : list Z := map Z.of_nat (seq 0 n).

(** ** The uid calculator *)

(** What [TapTapUidCalculator] reads from [network_los], and the
    settings the cache store consults. *)
Record NetworkLOS : Type := {
  tap_df : option (list value);            (* tap_df['TAP'].values *)
  attribute_segments : list (string * list value);
    (* TVPB_SETTINGS.tour_mode_choice.tap_tap_settings.attribute_segments,
       as the pairs the settings file lists *)
  spec_columns : list string;              (* columns of the tap_tap SPEC *)
  multiprocess : bool;
  rebuild_tvpb_cache : bool;
  trace_tvpb_cache_as_csv : bool;
  cache_dir : string
}.

Record TapTapUidCalculator : Type := {
  tap_ids : list value;
  segmentation : odict (list value);
  attribute_combination_tuples : list (list value);
  ordinalizers : odict Series;
  set_names : list string
}.

Definition TapTapUidCalculator_init (network_los : NetworkLOS)
  : result TapTapUidCalculator :=
  match tap_df network_los with
  | None => Raise AssertionError
  | Some taps =>
      let segmentation := dict_of_pairs (attribute_segments network_los) in
      (* ordinalizers[k] = pd.Series(range(len(v)), index=v), per item *)
      let ordinalizers : odict Series := dict_of_pairs segmentation in
      let ordinalizers := dict_set "btap" taps ordinalizers in
      let ordinalizers := dict_set "atap" taps ordinalizers in
      Ok {| tap_ids := taps;
            segmentation := segmentation;
            attribute_combination_tuples :=
              itertools_product (dict_values segmentation);
            ordinalizers := ordinalizers;
            set_names := spec_columns network_los |}
  end.

Definition fully_populated_rows (c : TapTapUidCalculator) : nat :=
  (length (attribute_combination_tuples c) * length (tap_ids c)
   * length (tap_ids c))%nat.

Definition fully_populated_shape (c : TapTapUidCalculator) : nat * nat :=
  (fully_populated_rows c, length (set_names c)).

Definition skim_shape (c : TapTapUidCalculator) : nat * nat * nat :=
  (length (attribute_combination_tuples c),
   (length (tap_ids c) * length (tap_ids c))%nat,
   length (set_names c)).

(** [np.arange] of the row count: an [int64] array (memory permitting),
    which numpy cannot produce for 2^63 elements or more: it raises
    instead. *)
Definition fully_populated_uids (c : TapTapUidCalculator) : result (list Z) :=
  if (Z.of_nat (fully_populated_rows c) <? 2 ^ 63)%Z
  then Ok (arange (fully_populated_rows c))
  else Raise ValueError.

(** A chooser dataframe: its length and its columns. *)
Record DataFrame : Type := {
  df_len : nat;
  df_columns : odict (list value)
}.

(** Elementwise [uid * cardinality + x]. *)
Definition radix_step (cardinality : cell) (u x : cell) : cell :=
  cell_add (cell_mul u cardinality) x.

(** One iteration of the loop of [get_unique_ids]. *)
Definition uid_step (df : DataFrame) (scalar_attributes : odict value)
  (uid : list cell) (item : string * Series) : result (list cell) :=
  let '(name, ordinalizer) := item in
  let cardinality := cell_add (Series_max ordinalizer) (Int 1) in
  match dict_get name (df_columns df) with
  | Some col =>
      mapped ← Series_map col ordinalizer;
      Ok (zip_with (radix_step cardinality) uid mapped)
  | None =>
      match dict_get name scalar_attributes with
      | None => Raise AssertionError
      | Some v =>
          i ← Series_at ordinalizer v;
          Ok (map (fun u => radix_step cardinality u (Int i)) uid)
      end
  end.

Definition get_unique_ids (c : TapTapUidCalculator) (df : DataFrame)
  (scalar_attributes : odict value) : result (list cell) :=
  foldM (uid_step df scalar_attributes) (ordinalizers c)
        (repeat (Int 0) (df_len df)).

(** [np.repeat(a, n)] and [np.tile(a, n)]. *)
Definition np_repeat {A : Type} (a : list A) (n : nat) : list A :=
  flat_map (fun x => repeat x n) a.
Definition np_tile {A : Type} (a : list A) (n : nat) : list A :=
  concat (repeat a n).

Definition duplicated_any {A : Type} `{EqDecision A} (index : list A) : bool :=
  negb (bool_decide (NoDup index)).

(** The origin/destination frame in row-major layout, indexed by uid. *)
Definition get_od_dataframe (c : TapTapUidCalculator)
  (scalar_attributes : odict value) : result (list cell * DataFrame) :=
  let num_taps := length (tap_ids c) in
  let od_choosers_df :=
    {| df_len := (num_taps * num_taps)%nat;
       df_columns := [("btap", np_repeat (tap_ids c) num_taps);
                      ("atap", np_tile (tap_ids c) num_taps)] |} in
  index ← get_unique_ids c od_choosers_df scalar_attributes;
  if duplicated_any index then Raise AssertionError
  else Ok (index, od_choosers_df).

(** One iteration of the loop of [get_skim_offset]. *)
Definition offset_step (scalar_attributes : odict value) (offset : cell)
  (item : string * Series) : result cell :=
  let '(name, ordinalizer) := item in
  let cardinality := cell_add (Series_max ordinalizer) (Int 1) in
  match dict_get name scalar_attributes with
  | Some v =>
      i ← Series_at ordinalizer v;
      Ok (radix_step cardinality offset (Int i))
  | None => Ok offset
  end.

Definition get_skim_offset (c : TapTapUidCalculator)
  (scalar_attributes : odict value) : result cell :=
  foldM (offset_step scalar_attributes) (ordinalizers c) (Int 0).

(** The generator object of [each_scalar_attribute_combination]: not yet
    started, suspended at its [yield] (with the local [attribute_names]
    and the position of the list iterator), or finished. *)
Inductive generator : Type :=
  | GenCreated
  | GenSuspended (attribute_names : list string) (pos : nat)
  | GenFinished.

(** Calling the generator function only creates the generator. *)
Definition each_scalar_attribute_combination (c : TapTapUidCalculator)
  : generator := GenCreated.

Definition generator_resume (c : TapTapUidCalculator)
  (attribute_names : list string) (pos : nat)
  : option (odict value) * generator :=
  match attribute_combination_tuples c !! pos with
  | Some attribute_value_tuple =>
      (Some (dict_of_pairs (combine attribute_names attribute_value_tuple)),
       GenSuspended attribute_names (S pos))
  | None => (None, GenFinished)
  end.

(** [next(g)]: the yielded mapping, or [None] for StopIteration. *)
Definition generator_next (c : TapTapUidCalculator) (g : generator)
  : option (odict value) * generator :=
  match g with
  | GenCreated => generator_resume c (dict_keys (segmentation c)) 0
  | GenSuspended attribute_names pos => generator_resume c attribute_names pos
  | GenFinished => (None, GenFinished)
  end.

(** [list(g)], with a bound on the number of [next] calls; [None] when
    the bound is reached before the generator stops. *)
Fixpoint generator_list (fuel : nat) (c : TapTapUidCalculator) (g : generator)
  : option (list (odict value)) :=
  match fuel with
  | O => None
  | S fuel' =>
      match generator_next c g with
      | (Some d, g') => cons d <$> generator_list fuel' c g'
      | (None, _) => Some []
      end
  end.

(** A frame of attribute values: the index labels and the name of the
    index, the column names, and the rows; a cell that pandas leaves
    unset is [None]. *)
Record ValueFrame : Type := {
  vf_index : list Z;
  vf_index_name : option string;
  vf_columns : list string;
  vf_rows : list (list (option value))
}.

(** [pd.DataFrame(data=x, columns=columns)] for a list of lists [x]:
    the rows are padded to the longest, and that width must be the
    number of columns; the index is a [RangeIndex].  With no row at all
    the frame is empty, with the given columns. *)
Definition pd_DataFrame (x : list (list value)) (columns : list string)
  : result ValueFrame :=
  match x with
  | [] => Ok {| vf_index := []; vf_index_name := None;
                vf_columns := columns; vf_rows := [] |}
  | _ :: _ =>
      let width := fold_right Nat.max 0%nat (map length x) in
      if (width =? length columns)%nat then
        Ok {| vf_index := arange (length x);
              vf_index_name := None;
              vf_columns := columns;
              vf_rows :=
                map (fun row =>
                       map Some row ++ repeat None (width - length row))
                    x |}
      else Raise ValueError
  end.

Definition scalar_attribute_combinations (c : TapTapUidCalculator)
  : result ValueFrame :=
  let attribute_names := dict_keys (segmentation c) in
  let attribute_tuples := attribute_combination_tuples c in
  let x := attribute_tuples in                  (* [list(t) for t in ...] *)
  df ← pd_DataFrame x attribute_names;
  Ok {| vf_index := vf_index df;
        vf_index_name := Some "offset";
        vf_columns := vf_columns df;
        vf_rows := vf_rows df |}.

(** ** The [memo] context manager *)

(** What [memo] does to the process besides measuring: garbage
    collector calls and messages.  The times and memory sizes it
    measures only appear in the text of its message, which is left
    out.  The store's methods wrap some of their steps in [memo]; it
    passes the outcome of its body through and touches only the
    process state below, so the methods are modelled without it. *)
Inductive memo_event : Type :=
  | LogNested (stack : list string)   (* logger.debug("nested memo call") *)
  | GcCollect
  | GcDisable
  | GcEnable
  | PrintMemo (tag : string)          (* print(f"MEMO {tag} ...") *)
  | LogMemo (tag : string).           (* logger.debug(f"MEM  {tag} ...") *)

(** The module's [MEMO_STACK], the state of the garbage collector, and
    the trace of events (latest last). *)
Record Process : Type := {
  MEMO_STACK : list string;
  gc_enabled : bool;
  memo_trace : list memo_event
}.

Definition set_MEMO_STACK (l : list string) (p : Process) : Process :=
  {| MEMO_STACK := l; gc_enabled := gc_enabled p;
     memo_trace := memo_trace p |}.
Definition set_gc_enabled (b : bool) (p : Process) : Process :=
  {| MEMO_STACK := MEMO_STACK p; gc_enabled := b;
     memo_trace := memo_trace p |}.
Definition trace_memo (e : memo_event) (p : Process) : Process :=
  {| MEMO_STACK := MEMO_STACK p; gc_enabled := gc_enabled p;
     memo_trace := memo_trace p ++ [e] |}.

(** The outcome of a [with memo(...)] block: that of its body (a value
    or an exception of the body, which passes through the [finally]
    clause), unless [MEMO_STACK.pop()] finds the stack empty. *)
Inductive memo_result (R : Type) : Type :=
  | Completed (r : R)
  | IndexError.
Arguments Completed {R} r.
Arguments IndexError {R}.

(** [with memo(tag, console, disable_gc): body] *)
Definition memo {R : Type} (tag : string) (console disable_gc : bool)
  (body : Process -> R * Process) (p : Process) : memo_result R * Process :=
  let p := set_MEMO_STACK (MEMO_STACK p ++ [tag]) p in
  let p := if (1 <? length (MEMO_STACK p))%nat
           then trace_memo (LogNested (MEMO_STACK p)) p else p in
  let gc_was_enabled := gc_enabled p in
  let p := if gc_was_enabled then
             let p := trace_memo GcCollect p in
             if disable_gc then set_gc_enabled false (trace_memo GcDisable p)
             else p
           else p in
  let '(r, p) := body p in
  (* finally *)
  let p := if gc_was_enabled && disable_gc
           then set_gc_enabled true (trace_memo GcEnable p) else p in
  let p := if gc_enabled p then trace_memo GcCollect p else p in
  let p := trace_memo (if console then PrintMemo tag else LogMemo tag) p in
  match MEMO_STACK p with
  | [] => (IndexError, p)
  | _ :: _ => (Completed r, set_MEMO_STACK (removelast (MEMO_STACK p)) p)
  end.

(** ** The cache store *)

Definition DYNAMIC : string := "dynamic".
Definition STATIC : string := "static".
Definition TRACE : string := "trace".

(** A [float32] utility value; the store never computes with them, so a
    finite value is kept as an opaque code. *)
Inductive float32 : Type :=
  | F32 (v : Z)
  | F32_nan.

#[global] Instance float32_eq_dec : EqDecision float32.
Proof. solve_decision. Defined.

Definition F32_zero : float32 := F32 0.

(** The cache table [_df]: rows of utility values (one per set name)
    labelled by uid, in table order. *)
Abbreviation Table := (list (Z * list float32)).

Definition table_index (t : Table) : list Z := map fst t.
Definition table_values (t : Table) : list float32 := concat (map snd t).

Inductive file : Type :=
  | MmapFile (data : list float32)      (* flat float32 array *)
  | FeatherFile (t : Table)             (* uid as first column *)
  | CsvFile (t : Table).

Inductive event : Type :=
  | IsFile (path : string)
  | Unlink (path : string)
  | MemmapRead (path : string)
  | MemmapWrite (path : string)
  | ReadFeather (path : string)
  | ToFeather (path : string)
  | ToCsv (path : string)
  | GetInjectable (name : string).

(** A data buffer: a private numpy array, or a [multiprocessing.Array]
    (a ctypes array with its lock). *)
Inductive buffer : Type :=
  | NumpyArray (data : list float32)
  | SharedArray (data : list float32).

(** What the store touches outside itself: the files of the cache
    directory, the injectable [data_buffers], and the trace of I/O
    performed so far (latest last). *)
Record World : Type := {
  fs : gmap string file;
  data_buffers : option (gmap string buffer);
  events : list event
}.

Record TVPBCache : Type := {
  cache_tag : string;
  network_los : NetworkLOS;
  uid_calculator : TapTapUidCalculator;
  is_open : bool;
  is_changed : bool;
  _df : option Table
}.

Definition TVPBCache_init (network_los : NetworkLOS)
  (uid_calculator : TapTapUidCalculator) (cache_tag : string) : TVPBCache :=
  {| cache_tag := cache_tag; network_los := network_los;
     uid_calculator := uid_calculator;
     is_open := false; is_changed := false; _df := None |}.

Definition set_is_open (b : bool) (s : TVPBCache) : TVPBCache :=
  {| cache_tag := cache_tag s; network_los := network_los s;
     uid_calculator := uid_calculator s;
     is_open := b; is_changed := is_changed s; _df := _df s |}.
Definition set_is_changed (b : bool) (s : TVPBCache) : TVPBCache :=
  {| cache_tag := cache_tag s; network_los := network_los s;
     uid_calculator := uid_calculator s;
     is_open := is_open s; is_changed := b; _df := _df s |}.
Definition set_df (d : option Table) (s : TVPBCache) : TVPBCache :=
  {| cache_tag := cache_tag s; network_los := network_los s;
     uid_calculator := uid_calculator s;
     is_open := is_open s; is_changed := is_changed s; _df := d |}.

Definition set_fs (f : gmap string file) (w : World) : World :=
  {| fs := f; data_buffers := data_buffers w; events := events w |}.
Definition add_event (e : event) (w : World) : World :=
  {| fs := fs w; data_buffers := data_buffers w; events := events w ++ [e] |}.

(** Methods run on the store and the world; an exception leaves both
    as they were when it was raised. *)
Definition M (A : Type) : Type :=
  TVPBCache * World -> result A * (TVPBCache * World).

#[global] Instance M_ret : MRet M := fun A a st => (Ok a, st).
#[global] Instance M_bind : MBind M := fun A B f m st =>
  match m st with
  | (Ok a, st') => f a st'
  | (Raise e, st') => (Raise e, st')
  end.

Definition raise {A : Type} (e : exn) : M A := fun st => (Raise e, st).
Definition lift {A : Type} (r : result A) : M A := fun st => (r, st).
Definition check (b : bool) (e : exn) : M unit :=
  if b then mret tt else raise e.
Definition assert_ (b : bool) : M unit := check b AssertionError.
Definition self : M TVPBCache := fun st => (Ok (fst st), st).
Definition world : M World := fun st => (Ok (snd st), st).
Definition update_self (f : TVPBCache -> TVPBCache) : M unit :=
  fun st => (Ok tt, (f (fst st), snd st)).
Definition update_world (f : World -> World) : M unit :=
  fun st => (Ok tt, (fst st, f (snd st))).
Definition emit (e : event) : M unit := update_world (add_event e).

(** [os.path.isfile] *)
Definition isfile (path : string) : M bool :=
  emit (IsFile path);;
  w ← world;
  mret (bool_decide (is_Some (fs w !! path))).

(** [os.path.join(cache_dir, f'{cache_tag}.{file_type}')], for a cache
    directory and a tag that is a plain file name. *)
Definition cache_file (s : TVPBCache) (file_type : string) : string :=
  cache_dir (network_los s) +:+ "/" +:+ cache_tag s +:+ "." +:+ file_type.

(** The file of [cache_type] in the cache directory. *)
Definition cache_path (cache_type : string) : M string :=
  s ← self;
  file_type ←
    (if String.eqb cache_type DYNAMIC then mret "feather"
     else if String.eqb cache_type STATIC then mret "mmap"
     else if String.eqb cache_type TRACE then mret "csv"
     else raise AssertionError);
  mret (cache_file s file_type).

(** The world after a file was written, with the event that wrote it. *)
Definition store_file (e : event) (path : string) (f : file) (w : World)
  : World :=
  set_fs (<[path := f]> (fs w)) (add_event e w).

(** [np.memmap(path, mode='w+')], [np.copyto], close. *)
Definition memmap_write (path : string) (data : list float32) : M unit :=
  update_world (store_file (MemmapWrite path) path (MmapFile data)).

(** [np.memmap(path, mode='r')] *)
Definition memmap_read (path : string) : M (list float32) :=
  emit (MemmapRead path);;
  w ← world;
  match fs w !! path with
  | Some (MmapFile data) => mret data
  | _ => raise ValueError
  end.

Definition read_feather (path : string) : M Table :=
  emit (ReadFeather path);;
  w ← world;
  match fs w !! path with
  | Some (FeatherFile t) => mret t
  | _ => raise ValueError
  end.

Definition to_feather (path : string) (t : Table) : M unit :=
  update_world (store_file (ToFeather path) path (FeatherFile t)).

Definition to_csv (path : string) (t : Table) : M unit :=
  update_world (store_file (ToCsv path) path (CsvFile t)).

Definition unlink (path : string) : M unit :=
  emit (Unlink path);;
  update_world (fun w => set_fs (delete path (fs w)) w).

Definition cleanup_one (cache_type : string) : M unit :=
  p ← cache_path cache_type;
  present ← isfile p;
  (if (present : bool) then p' ← cache_path cache_type; unlink p' else mret tt) : M unit.

Definition cleanup : M unit :=
  s ← self;
  (if rebuild_tvpb_cache (network_los s) then
     cleanup_one STATIC;; cleanup_one DYNAMIC;; cleanup_one TRACE
   else mret tt) : M unit.

(** [data.reshape(shape)] needs an array of the shape's size. *)
Definition write_static_cache (data : list float32) : M unit :=
  s ← self;
  assert_ (negb (is_open s));;
  assert_ (bool_decide (_df s = None));;
  assert_ (negb (is_changed s));;
  let shape := fully_populated_shape (uid_calculator s) in
  check (length data =? fst shape * snd shape)%nat ValueError;;
  p ← cache_path STATIC;
  memmap_write p data.

(** Rows of [ncols] cells cut from a flat array. *)
Fixpoint chunks {A : Type} (fuel ncols : nat) (data : list A) : list (list A) :=
  match fuel with
  | O => []
  | S fuel' =>
      match data with
      | [] => []
      | _ :: _ => take ncols data :: chunks fuel' ncols (drop ncols data)
      end
  end.

(** [data.reshape((-1, ncols))] *)
Definition reshape_rows (data : list float32) (ncols : nat)
  : result (list (list float32)) :=
  if (ncols =? 0)%nat then Raise ValueError
  else if (length data mod ncols =? 0)%nat
       then Ok (chunks (length data) ncols data)
       else Raise ValueError.

(** [np.ctypeslib.as_array(data_buffer.get_obj())] *)
Definition as_array (b : buffer) : result (list float32) :=
  match b with
  | SharedArray data => Ok data
  | NumpyArray _ => Raise AttributeError
  end.

Definition get_data_and_lock_from_buffers : M (list float32) :=
  s ← self;
  emit (GetInjectable "data_buffers");;
  w ← world;
  match data_buffers w with
  | None => raise TypeError
  | Some buffers =>
      match buffers !! cache_tag s with
      | None => raise AssertionError
      | Some data_buffer => lift (as_array data_buffer)
      end
  end.

Definition open_static (data : list float32) : M unit :=
  s ← self;
  let column_names := set_names (uid_calculator s) in
  rows ← lift (reshape_rows data (length column_names));
  uids ← lift (fully_populated_uids (uid_calculator s));
  assert_ (length rows =? length uids)%nat;;
  update_self (set_df (Some (zip uids rows))).

Definition open (for_rebuild : bool) : M unit :=
  s ← self;
  assert_ (negb (is_open s));;
  update_self (set_is_open true);;
  (if for_rebuild then mret tt
   else if multiprocess (network_los s) then
     data ← get_data_and_lock_from_buffers;
     open_static data
   else
     static_path ← cache_path STATIC;
     has_static ← isfile static_path;
     (if (has_static : bool) then
        p ← cache_path STATIC;
        data ← memmap_read p;
        open_static data
      else
        dynamic_path ← cache_path DYNAMIC;
        has_dynamic ← isfile dynamic_path;
        (if (has_dynamic : bool) then
           p ← cache_path DYNAMIC;
           df ← read_feather p;
           assert_ (negb (duplicated_any (table_index df)));;
           update_self (set_df (Some df))
         else mret tt) : M unit) : M unit) : M unit.

Definition is_fully_populated : M bool :=
  s ← self;
  assert_ (is_open s);;
  mret (match _df s with
        | Some t =>
            (length t =? fst (fully_populated_shape (uid_calculator s)))%nat
        | None => false
        end).

(** [self._df.index], [self._df.values], ...: attribute access on the
    table, which fails on [None]. *)
Definition the_df : M Table :=
  s ← self;
  match _df s with
  | Some t => mret t
  | None => raise AttributeError
  end.

Definition flush : M unit :=
  s ← self;
  assert_ (is_open s);;
  t ← the_df;
  assert_ (negb (duplicated_any (table_index t)));;
  (if is_changed s then
     full ← is_fully_populated;
     ((if (full : bool) then
         (raise AssertionError : M unit);;          (* assert False *)
         p ← cache_path STATIC;
         memmap_write p (table_values t);;
         update_self (set_is_changed false)
       else
         if rebuild_tvpb_cache (network_los s) then
           p ← cache_path DYNAMIC;
           to_feather p t;;
           update_self (set_is_changed false)
         else mret tt) : M unit);;
     (if trace_tvpb_cache_as_csv (network_los s) then
        csv_path ← cache_path TRACE;
        to_csv csv_path t
      else mret tt) : M unit
   else mret tt) : M unit.

Definition close : M unit :=
  s ← self;
  assert_ (is_open s);;
  flush;;
  update_self (set_is_open false);;
  update_self (set_df None).

Definition table : M (option Table) := s ← self; mret (_df s).

Definition extend_table (new_rows : Table) : M unit :=
  assert_ (0 <? length new_rows)%nat;;
  s ← self;
  assert_ (is_open s);;
  full ← is_fully_populated;
  assert_ (negb full);;
  update_self (set_is_changed true);;
  update_self (set_df (Some (match _df s with
                             | None => new_rows
                             | Some t => t ++ new_rows
                             end)));;
  t ← the_df;
  assert_ (negb (duplicated_any (table_index t))).

(** [util.iprod]: the product of a shape, as a Python int. *)
Definition iprod (shape : nat * nat) : nat := (fst shape * snd shape)%nat.

Definition RAWARRAY : bool := false.
Definition DTYPE_NAME : string := "float32".

Definition allocate_data_buffer (shared : bool) : M buffer :=
  s ← self;
  assert_ (negb (is_open s));;
  let buffer_size := iprod (fully_populated_shape (uid_calculator s)) in
  (if shared then
     check (String.eqb DTYPE_NAME "float64" || String.eqb DTYPE_NAME "float32")
           RuntimeError;;
     (* a ctypes array created from a size is zeroed; [RawArray] and
        [Array] hold the same elements *)
     mret (SharedArray (repeat F32_zero buffer_size))
   else
     (* [np.empty] then [np.copyto(buffer, np.nan)] *)
     mret (NumpyArray (repeat F32_nan buffer_size))) : M buffer.

(** [np.copyto(dst, src)] on flat arrays: equal sizes, or a single
    source element broadcast. *)
Definition copyto (dst src : list float32) : result (list float32) :=
  if (length src =? length dst)%nat then Ok src
  else match src with
       | [x] => Ok (repeat x (length dst))
       | _ => Raise ValueError
       end.

(** The buffer is filled in place; the model returns its new state. *)
Definition load_data_to_buffer (data_buffer : buffer) : M buffer :=
  s ← self;
  assert_ (negb (is_open s));;
  np_wrapped_data_buffer ← lift (as_array data_buffer);
  static_path ← cache_path STATIC;
  has_static ← isfile static_path;
  (if (has_static : bool) then
     p ← cache_path STATIC;
     data ← memmap_read p;
     filled ← lift (copyto np_wrapped_data_buffer data);
     mret (SharedArray filled)
   else
     mret (SharedArray (repeat F32_nan (length np_wrapped_data_buffer))))
  : M buffer.

(** Run a method on a store and a world. *)
Definition run {A : Type} (m : M A) (s : TVPBCache) (w : World)
  : result A * (TVPBCache * World) := m (s, w).

(** ** Notions the theorems are stated with *)

(** The integers [lo, lo + n). *)
Definition zrange (lo : Z) (n : nat) : list Z :=
  map (fun i => (lo + Z.of_nat i)%Z) (seq 0 n).

(** The number of tuples over a list of label lists. *)
Definition num_tuples (ords : list Series) : nat :=
  fold_right (fun o p => (length o * p)%nat) 1%nat ords.

Definition index_of (v : value) (s : Series) : option Z :=
  match positions v s 0 with
  | i :: _ => Some i
  | [] => None
  end.

(** The ordinal of a value among the labels of its ordinalizer. *)
Definition ordinal (v : value) (o : Series) : Z := default 0%Z (index_of v o).

(** Mixed-radix composition over unbounded integers: the value the
    uid loop computes when nothing wraps. *)
Fixpoint radix (ords : list Series) (t : list value) (acc : Z) : option Z :=
  match ords, t with
  | [], [] => Some acc
  | o :: ords', v :: t' =>
      match index_of v o with
      | Some i => radix ords' t' (acc * Z.of_nat (length o) + i)
      | None => None
      end
  | _, _ => None
  end.

(** The configuration is what the source expects of it: attribute names
    are distinct and are not the two tap columns, and the values of an
    attribute, like the tap ids, are distinct. *)
Record well_formed (nl : NetworkLOS) : Prop := {
  wf_taps : is_Some (tap_df nl);
  wf_names : NoDup (map fst (attribute_segments nl));
  wf_btap : ~ In "btap" (map fst (attribute_segments nl));
  wf_atap : ~ In "atap" (map fst (attribute_segments nl));
  wf_values : Forall (fun o => NoDup o) (map snd (attribute_segments nl));
  wf_tap_ids : forall taps, tap_df nl = Some taps -> NoDup taps
}.

(** A key of the cache: a tuple of segment attribute values, an origin
    tap and a destination tap. *)
Definition key : Type := list value * value * value.

(** The full Cartesian product, in canonical order. *)
Definition keys (c : TapTapUidCalculator) : list key :=
  flat_map (fun t =>
    flat_map (fun b => map (fun a => (t, b, a)) (tap_ids c)) (tap_ids c))
    (attribute_combination_tuples c).

(** The attribute values of a key in canonical order: segment values,
    then origin tap, then destination tap. *)
Definition tuple_of (k : key) : list value :=
  let '(t, b, a) := k in t ++ [b; a].

(** The scalar attributes of a segment tuple, as the generator builds
    them. *)
Definition scalar_attributes_of (c : TapTapUidCalculator) (t : list value)
  : odict value :=
  dict_of_pairs (combine (dict_keys (segmentation c)) t).

(** How the uid loop finds the value of attribute [name] for the single
    row of a frame: in the column of that name, or else among the
    scalar attributes. *)
Definition row_value (df : DataFrame) (scalar_attributes : odict value)
  (name : string) (v : value) : Prop :=
  dict_get name (df_columns df) = Some [v]
  \/ (dict_get name (df_columns df) = None
      /\ dict_get name scalar_attributes = Some v).

(** The one-row frame with an origin and a destination tap. *)
Definition od_row (btap atap : value) : DataFrame :=
  {| df_len := 1; df_columns := [("btap", [btap]); ("atap", [atap])] |}.

(** The uid of one key: [get_unique_ids] on the one-row frame with the
    two taps, the segment values given as scalar attributes. *)
Definition compute_uid (c : TapTapUidCalculator) (k : key)
  : result (list cell) :=
  let '(t, b, a) := k in
  get_unique_ids c (od_row b a) (scalar_attributes_of c t).

(** The origin/destination frame that [get_od_dataframe] builds. *)
Definition od_frame (c : TapTapUidCalculator) : DataFrame :=
  {| df_len := (length (tap_ids c) * length (tap_ids c))%nat;
     df_columns :=
       [("btap", np_repeat (tap_ids c) (length (tap_ids c)));
        ("atap", np_tile (tap_ids c) (length (tap_ids c)))] |}.

(** The uid index [get_unique_ids] gives the origin/destination frame
    of a segment tuple (none when [get_od_dataframe] raises). *)
Definition od_index (c : TapTapUidCalculator) (t : list value) : list cell :=
  match get_od_dataframe c (scalar_attributes_of c t) with
  | Ok (index, _) => index
  | Raise _ => []
  end.

(** The rows of the in-memory table, none when there is no table. *)
Definition rows_of (d : option Table) : Table := default [] d.

(** What [is_fully_populated] answers on an open store. *)
Definition fully_populated (s : TVPBCache) : bool :=
  match _df s with
  | Some t => (length t =? fully_populated_rows (uid_calculator s))%nat
  | None => false
  end.

(** The store after a successful or a failed [extend_table]: the new
    rows appended, the dirty flag set. *)
Definition extended (new_rows : Table) (s : TVPBCache) : TVPBCache :=
  set_df (Some (rows_of (_df s) ++ new_rows)) (set_is_changed true s).

(** A closed store holds no table. *)
Definition store_inv (s : TVPBCache) : Prop :=
  is_open s = false -> _df s = None.

(** The calls a client makes on a store. *)
Inductive method : Type :=
  | CallCleanup
  | CallWriteStaticCache (data : list float32)
  | CallOpen (for_rebuild : bool)
  | CallExtendTable (new_rows : Table)
  | CallFlush
  | CallClose
  | CallTable
  | CallAllocateDataBuffer (shared : bool)
  | CallLoadDataToBuffer (data_buffer : buffer).

Definition call (m : method) : M unit :=
  match m with
  | CallCleanup => cleanup
  | CallWriteStaticCache data => write_static_cache data
  | CallOpen for_rebuild => open for_rebuild
  | CallExtendTable new_rows => extend_table new_rows
  | CallFlush => flush
  | CallClose => close
  | CallTable => table;; mret tt
  | CallAllocateDataBuffer shared => allocate_data_buffer shared;; mret tt
  | CallLoadDataToBuffer data_buffer =>
      load_data_to_buffer data_buffer;; mret tt
  end.

(** A sequence of calls on a store, each one made whether or not the
    previous one raised (the client catching the exception). *)
Fixpoint calls (ms : list method) (s : TVPBCache) (w : World)
  : TVPBCache * World :=
  match ms with
  | [] => (s, w)
  | m :: ms' => let '(_, (s', w')) := run (call m) s w in calls ms' s' w'
  end.

(** Assertions on the store before and after a method; the
    postcondition holds of the store the method leaves, whether it
    returns or raises. *)
Definition triple {A : Type} (P : TVPBCache -> Prop) (m : M A)
  (Q : TVPBCache -> Prop) : Prop :=
  forall s w r s' w', m (s, w) = (r, (s', w')) -> P s -> Q s'.




(** A uid that is an integer, not NaN. *)
Definition is_Int (x : cell) : Prop :=
  match x with Int _ => True | NaN => False end.

(** A block that leaves the memo stack and the state of the garbage
    collector as it found them. *)
Definition transparent {R : Type} (body : Process -> R * Process) : Prop :=
  forall p, MEMO_STACK (snd (body p)) = MEMO_STACK p
            /\ gc_enabled (snd (body p)) = gc_enabled p.

(** The calls that are not meant to change the cache: all but
    [cleanup], [write_static_cache] and [extend_table]. *)
Definition only_reads (m : method) : bool :=
  match m with
  | CallCleanup | CallWriteStaticCache _ | CallExtendTable _ => false
  | _ => true
  end.

(** The configuration of the worked scenario: one attribute [tod] with
    values AM and MD, access points 10 and 20. *)
Definition scenario_los (sets : list string) : NetworkLOS :=
  {| tap_df := Some [VInt 10; VInt 20];
     attribute_segments := [("tod", [VStr "AM"; VStr "MD"])];
     spec_columns := sets;
     multiprocess := false;
     rebuild_tvpb_cache := false;
     trace_tvpb_cache_as_csv := false;
     cache_dir := "cache" |}.

Definition scenario_calculator (sets : list string) : TapTapUidCalculator :=
  {| tap_ids := [VInt 10; VInt 20];
     segmentation := [("tod", [VStr "AM"; VStr "MD"])];
     attribute_combination_tuples := [[VStr "AM"]; [VStr "MD"]];
     ordinalizers := [("tod", [VStr "AM"; VStr "MD"]);
                      ("btap", [VInt 10; VInt 20]);
                      ("atap", [VInt 10; VInt 20])];
     set_names := sets |}.

(** The scenario's store, and a world with no files and no buffers. *)
Definition scenario_store : TVPBCache :=
  TVPBCache_init (scenario_los ["set1"]) (scenario_calculator ["set1"])
                 "tap_tap".

Definition empty_world : World :=
  {| fs := ∅; data_buffers := None; events := [] |}.

(** A world where the scenario's static file, dynamic file and shared
    buffer all exist. *)
Definition stocked_world : World :=
  {| fs := {[ "cache/tap_tap.mmap" := MmapFile (repeat (F32 1) 8);
              "cache/tap_tap.feather" := FeatherFile [(2%Z, [F32 2])] ]};
     data_buffers := Some {[ "tap_tap" := SharedArray (repeat (F32 1) 8) ]};
     events := [] |}.

(** The scenario's store once opened. *)
Definition scenario_open : TVPBCache := set_is_open true scenario_store.

(** A one-column table with the given uids. *)
Definition rows_with (uids : list Z) : Table :=
  map (fun u => (u, [F32 u])) uids.

(** * Properties *)

(** ** Integer ranges and positions *)

Lemma zrange_length lo n : length (zrange lo n) = n.
Proof. unfold zrange. by rewrite length_map, length_seq. Qed.

Lemma zrange_S lo n : zrange lo (S n) = lo :: zrange (lo + 1) n.
Proof.
  unfold zrange. simpl. f_equal; [lia|].
  rewrite <- seq_shift, map_map. apply map_ext. intros; lia.
Qed.

Lemma zrange_app lo n m :
  zrange lo (n + m) = zrange lo n ++ zrange (lo + Z.of_nat n) m.
Proof.
  revert lo. induction n as [|n IH]; intros lo.
  - simpl. f_equal. lia.
  - change (S n + m)%nat with (S (n + m)).
    rewrite !zrange_S, IH, <- app_comm_cons. do 3 f_equal. lia.
Qed.

Lemma zrange_shift lo n : zrange lo n = map (Z.add lo) (zrange 0 n).
Proof. unfold zrange. rewrite map_map. apply map_ext. intros; lia. Qed.

Lemma zrange_lookup lo n i :
  zrange lo n !! i = if decide (i < n)%nat then Some (lo + Z.of_nat i)%Z else None.
Proof.
  unfold zrange. rewrite list_lookup_fmap.
  case_decide as Hi.
  - by rewrite (lookup_seq_lt _ _ _ Hi).
  - rewrite lookup_seq_ge; [done | lia].
Qed.

Lemma In_zrange lo n z : In z (zrange lo n) <-> (lo <= z < lo + Z.of_nat n)%Z.
Proof.
  unfold zrange. rewrite in_map_iff. split.
  - intros (i & <- & Hi%in_seq). lia.
  - intros Hz. exists (Z.to_nat (z - lo)). split; [lia|]. apply in_seq. lia.
Qed.

Lemma NoDup_zrange lo n : NoDup (zrange lo n).
Proof.
  unfold zrange. apply NoDup_fmap_2; [|apply NoDup_seq].
  intros i j Hij. lia.
Qed.

(** Consecutive blocks of [p] integers make one range. *)
Lemma zrange_blocks (p : nat) s n :
  flat_map (fun i => zrange (i * Z.of_nat p) p) (zrange s n)
  = zrange (s * Z.of_nat p) (n * p).
Proof.
  revert s. induction n as [|n IH]; intros s; [done|].
  rewrite zrange_S. simpl. rewrite IH, zrange_app. do 2 f_equal. lia.
Qed.

Lemma positions_notin key s i : ~ In key s -> positions key s i = [].
Proof.
  revert i. induction s as [|x s IH]; intros i Hn; [done|]. simpl.
  case_decide as Hx.
  - destruct Hn. by left.
  - apply IH. intros ?. apply Hn. by right.
Qed.

(** In a Series with distinct labels, the label at position [k] is
    found there and nowhere else. *)
Lemma positions_nth (s : Series) : forall k v i,
  NoDup s -> s !! k = Some v -> positions v s i = [(i + Z.of_nat k)%Z].
Proof.
  induction s as [|x s IH]; intros k v i Hnd Hk; [done|].
  apply NoDup_cons in Hnd as [Hx Hnd]. rewrite list_elem_of_In in Hx.
  destruct k as [|k]; simpl in *.
  - injection Hk as ->. rewrite decide_True by done.
    rewrite positions_notin by done. f_equal. lia.
  - rewrite decide_False.
    + rewrite (IH k v (i + 1)%Z Hnd Hk). f_equal. lia.
    + intros ->. apply Hx. apply list_elem_of_In. eapply list_elem_of_lookup_2, Hk.
Qed.

Lemma index_of_nth (s : Series) k v :
  NoDup s -> s !! k = Some v -> index_of v s = Some (Z.of_nat k).
Proof.
  intros Hnd Hk. unfold index_of. by rewrite (positions_nth s k v 0 Hnd Hk).
Qed.

Lemma index_of_all (s : Series) :
  NoDup s -> map (fun v => index_of v s) s = map Some (zrange 0 (length s)).
Proof.
  intros Hnd. apply list_eq. intros k.
  rewrite !list_lookup_fmap, zrange_lookup.
  destruct (s !! k) as [v|] eqn:Hk.
  - rewrite decide_True by (by eapply lookup_lt_Some).
    simpl. by rewrite (index_of_nth s k v).
  - by rewrite decide_False by (apply lookup_ge_None in Hk; lia).
Qed.

(** ** The Cartesian product and mixed-radix composition *)

Lemma product_length (ords : list Series) :
  length (itertools_product ords) = num_tuples ords.
Proof.
  induction ords as [|o ords IH]; [done|]. simpl.
  rewrite <- IH. generalize (itertools_product ords). intros l.
  induction o as [|x o IHo]; [done|]. simpl.
  by rewrite length_app, length_map, IHo.
Qed.

Lemma flat_map_map {A B C : Type} (f : B -> list C) (g : A -> B) (l : list A) :
  flat_map f (map g l) = flat_map (fun x => f (g x)) l.
Proof. induction l as [|x l IH]; [done|]. simpl. by rewrite IH. Qed.

Lemma map_flat_map {A B C : Type} (f : B -> C) (g : A -> list B) (l : list A) :
  map f (flat_map g l) = flat_map (fun x => map f (g x)) l.
Proof. induction l as [|x l IH]; [done|]. simpl. by rewrite map_app, IH. Qed.

(** Enumerating the product in [itertools] order, the mixed-radix
    values count up through one block. *)
Lemma radix_product (ords : list Series) : forall acc,
  Forall (fun o => NoDup o) ords ->
  map (fun t => radix ords t acc) (itertools_product ords)
  = map Some (zrange (acc * Z.of_nat (num_tuples ords)) (num_tuples ords)).
Proof.
  induction ords as [|o ords IH]; intros acc Hnd.
  - simpl. unfold zrange. simpl. do 2 f_equal. lia.
  - apply Forall_cons in Hnd as [Ho Hnd]. simpl.
    rewrite map_flat_map.
    set (G := fun oi : option Z =>
      map (fun t => match oi with
                    | Some i => radix ords t (acc * Z.of_nat (length o) + i)
                    | None => None
                    end) (itertools_product ords)).
    transitivity (flat_map G (map (fun v => index_of v o) o)).
    { rewrite flat_map_map. apply flat_map_ext. intros x.
      rewrite map_map. unfold G. apply map_ext. intros t. simpl.
      by destruct (index_of x o). }
    rewrite index_of_all by done. rewrite flat_map_map. unfold G.
    erewrite flat_map_ext; [|intros i; apply IH, Hnd].
    rewrite <- map_flat_map. f_equal.
    replace (acc * Z.of_nat (length o * num_tuples ords))%Z
      with (acc * Z.of_nat (length o) * Z.of_nat (num_tuples ords))%Z by lia.
    rewrite <- zrange_blocks, (zrange_shift (acc * _) (length o)).
    by rewrite flat_map_map.
Qed.

Lemma flat_map_flat_map {A B C : Type} (f : B -> list C) (g : A -> list B)
  (l : list A) :
  flat_map f (flat_map g l) = flat_map (fun x => flat_map f (g x)) l.
Proof.
  induction l as [|x l IH]; [done|]. simpl. by rewrite flat_map_app, IH.
Qed.

Lemma flat_map_singleton {A B : Type} (f : A -> B) (l : list A) :
  flat_map (fun x => [f x]) l = map f l.
Proof. induction l as [|x l IH]; [done|]. simpl. by rewrite IH. Qed.

Lemma product_app {A : Type} (l1 l2 : list (list A)) :
  itertools_product (l1 ++ l2)
  = flat_map (fun t1 => map (app t1) (itertools_product l2))
             (itertools_product l1).
Proof.
  induction l1 as [|o l1 IH]; simpl.
  - by rewrite map_id, app_nil_r.
  - rewrite IH, flat_map_flat_map. apply flat_map_ext. intros x.
    rewrite map_flat_map, flat_map_map. apply flat_map_ext. intros t1.
    by rewrite map_map.
Qed.

Lemma product_In {A : Type} (ords : list (list A)) : forall t,
  In t (itertools_product ords) -> Forall2 (fun o v => In v o) ords t.
Proof.
  induction ords as [|o ords IH]; intros t Ht; simpl in Ht.
  - destruct Ht as [<-|[]]. constructor.
  - apply in_flat_map in Ht as (x & Hx & Ht).
    apply in_map_iff in Ht as (t' & <- & Ht'). constructor; auto.
Qed.

Lemma Forall2_map_left {A B C : Type} (P : B -> C -> Prop) (f : A -> B)
  (l : list A) : forall k,
  Forall2 P (map f l) k <-> Forall2 (fun x y => P (f x) y) l k.
Proof.
  induction l as [|x l IH]; intros k; simpl.
  - split; inversion 1; constructor.
  - split; inversion 1; subst; constructor; auto; by apply IH.
Qed.

(** ** Dictionaries *)

Lemma dict_set_fresh {V : Type} (k : string) (v : V) (d : odict V) :
  ~ In k (map fst d) -> dict_set k v d = d ++ [(k, v)].
Proof.
  induction d as [|[k' v'] d IH]; intros Hk; [done|]. simpl in *.
  destruct (String.eqb_spec k k') as [->|Hne].
  - destruct Hk. by left.
  - rewrite IH; [done|]. intros ?. apply Hk. by right.
Qed.

Lemma dict_fold_nodup {V : Type} (kvs : list (string * V)) : forall acc,
  NoDup (map fst (acc ++ kvs)) ->
  fold_left (fun d kv => dict_set (fst kv) (snd kv) d) kvs acc = acc ++ kvs.
Proof.
  induction kvs as [|[k v] kvs IH]; intros acc Hnd; simpl.
  - by rewrite app_nil_r.
  - assert (Hfresh : ~ In k (map fst acc)).
    { rewrite map_app in Hnd. simpl in Hnd.
      apply NoDup_app in Hnd as (_ & Hdisj & _).
      intros Hin%list_elem_of_In. apply (Hdisj k Hin). by left. }
    rewrite dict_set_fresh by done. rewrite IH.
    + by rewrite <- app_assoc.
    + by rewrite <- app_assoc.
Qed.

Lemma dict_of_pairs_nodup {V : Type} (kvs : list (string * V)) :
  NoDup (map fst kvs) -> dict_of_pairs kvs = kvs.
Proof. intros Hnd. unfold dict_of_pairs. by rewrite dict_fold_nodup. Qed.

Lemma dict_get_notin {V : Type} (k : string) (d : odict V) :
  ~ In k (map fst d) -> dict_get k d = None.
Proof.
  induction d as [|[k' v'] d IH]; intros Hk; [done|]. simpl in *.
  destruct (String.eqb_spec k k') as [->|Hne].
  - destruct Hk. by left.
  - apply IH. intros ?. apply Hk. by right.
Qed.

Lemma dict_get_app_l {V : Type} (k : string) (d1 d2 : odict V) v :
  dict_get k d1 = Some v -> dict_get k (d1 ++ d2) = Some v.
Proof.
  induction d1 as [|[k' v'] d1 IH]; intros Hk; [done|]. simpl in *.
  destruct (String.eqb k k'); auto.
Qed.

Lemma dict_get_app_r {V : Type} (k : string) (d1 d2 : odict V) :
  ~ In k (map fst d1) -> dict_get k (d1 ++ d2) = dict_get k d2.
Proof.
  induction d1 as [|[k' v'] d1 IH]; intros Hk; [done|]. simpl in *.
  destruct (String.eqb_spec k k') as [->|Hne].
  - destruct Hk. by left.
  - apply IH. intros ?. apply Hk. by right.
Qed.

(** Looking up the names of a zipped dictionary gives back the values,
    position by position. *)
Lemma dict_get_combine {V : Type} (names : list string) : forall (vs : list V),
  NoDup names -> length vs = length names ->
  Forall2 (fun n v => dict_get n (combine names vs) = Some v) names vs.
Proof.
  induction names as [|n names IH]; intros [|v vs] Hnd Hlen;
    try discriminate; [constructor|].
  apply NoDup_cons in Hnd as [Hn Hnd]. simpl in *. constructor.
  - by rewrite String.eqb_refl.
  - eapply Forall2_impl; [apply IH; [done|lia]|].
    intros n' v' Hget. simpl in *.
    destruct (String.eqb_spec n' n) as [->|Hne]; [|done].
    destruct Hn. apply list_elem_of_In.
    assert (Hin : In n (map fst (combine names vs))).
    { destruct (in_dec String.string_dec n (map fst (combine names vs))) as [?|Hnin];
        [done|]. by rewrite dict_get_notin in Hget. }
    apply in_map_iff in Hin as ([n1 v1] & <- & Hin).
    by apply in_combine_l in Hin.
Qed.

(** ** The uid loop against mixed-radix composition *)

Lemma wrap64_small z : (- 2 ^ 63 <= z < 2 ^ 63)%Z -> wrap64 z = z.
Proof. intros Hz. unfold wrap64. rewrite Z.mod_small; lia. Qed.

Section RadixFold.
Context {S : Type} (inj : Z -> S) (step : S -> string * Series -> result S).
Variable resolves : string -> value -> Prop.

Hypothesis step_resolved : forall acc name (o : Series) v (k : nat),
  resolves name v -> NoDup o -> o !! k = Some v ->
  (0 <= acc)%Z -> ((acc + 1) * Z.of_nat (length o) < 2 ^ 63)%Z ->
  step (inj acc) (name, o) = Ok (inj (acc * Z.of_nat (length o) + Z.of_nat k)%Z).

Lemma foldM_radix (items : list (string * Series)) (t : list value) :
  Forall2 (fun item v =>
    resolves (fst item) v /\ NoDup (snd item) /\ In v (snd item)) items t ->
  forall acc B,
  (0 <= acc < B)%Z ->
  (B * Z.of_nat (num_tuples (map snd items)) < 2 ^ 63)%Z ->
  exists r, radix (map snd items) t acc = Some r
    /\ (0 <= r < B * Z.of_nat (num_tuples (map snd items)))%Z
    /\ foldM step items (inj acc) = Ok (inj r).
Proof.
  induction 1 as [|[name o] v items t (Hres & Hnd & Hin) _ IH];
    intros acc B Hacc HB; simpl in *.
  - exists acc. split; [done|]. split; [lia|done].
  - apply list_elem_of_In, list_elem_of_lookup_1 in Hin as [k Hk].
    pose proof (lookup_lt_Some _ _ _ Hk) as Hlt.
    rewrite (index_of_nth o k v Hnd Hk).
    rewrite Nat2Z.inj_mul in HB |- *.
    set (L := Z.of_nat (length o)) in *.
    set (P := Z.of_nat (num_tuples (map snd items))) in *.
    assert (0 <= Z.of_nat k < L)%Z as Hk' by lia.
    assert (0 <= P)%Z as HP by lia.
    assert (0 <= acc * L)%Z by nia.
    assert ((acc + 1) * L <= B * L)%Z by nia.
    destruct (IH (acc * L + Z.of_nat k)%Z (B * L)%Z)
      as (r & Hr & Hb & Hf); [lia|by rewrite <- Z.mul_assoc|].
    rewrite <- Z.mul_assoc in Hb.
    exists r. split; [done|]. split; [lia|].
    assert (1 <= P)%Z by nia.
    assert (B * L <= B * (L * P))%Z by nia.
    rewrite (step_resolved acc name o v k); [done..| |]; lia.
Qed.
End RadixFold.

Lemma cardinality_eq (o : Series) (k : nat) v :
  o !! k = Some v -> (Z.of_nat (length o) < 2 ^ 63)%Z ->
  cell_add (Series_max o) (Int 1) = Int (Z.of_nat (length o)).
Proof.
  intros Hk Hlen. destruct o as [|x o]; [done|]. unfold Series_max, cell_add.
  rewrite wrap64_small by lia. f_equal. lia.
Qed.

Lemma radix_step_eq (len acc k : Z) :
  (0 <= acc)%Z -> (0 <= k < len)%Z -> ((acc + 1) * len < 2 ^ 63)%Z ->
  radix_step (Int len) (Int acc) (Int k) = Int (acc * len + k).
Proof.
  intros Hacc Hk Hb. unfold radix_step, cell_mul, cell_add.
  rewrite (wrap64_small (acc * _)) by nia. by rewrite wrap64_small by nia.
Qed.

Lemma uid_step_single df scal acc name (o : Series) v (k : nat) :
  row_value df scal name v -> NoDup o -> o !! k = Some v ->
  (0 <= acc)%Z -> ((acc + 1) * Z.of_nat (length o) < 2 ^ 63)%Z ->
  uid_step df scal [Int acc] (name, o)
  = Ok [Int (acc * Z.of_nat (length o) + Z.of_nat k)].
Proof.
  intros Hrow Hnd Hk Hacc Hb.
  pose proof (lookup_lt_Some _ _ _ Hk) as Hlt.
  unfold uid_step. rewrite (cardinality_eq o k v Hk) by nia.
  destruct Hrow as [Hcol|[Hcol Hscal]]; rewrite Hcol.
  - unfold Series_map, is_unique. rewrite bool_decide_eq_true_2 by done.
    simpl. rewrite (positions_nth o k v 0 Hnd Hk), Z.add_0_l. simpl.
    by rewrite radix_step_eq by lia.
  - rewrite Hscal. unfold Series_at.
    rewrite (positions_nth o k v 0 Hnd Hk), Z.add_0_l. simpl.
    by rewrite radix_step_eq by lia.
Qed.

Lemma offset_step_hit scal acc name (o : Series) v (k : nat) :
  dict_get name scal = Some v -> NoDup o -> o !! k = Some v ->
  (0 <= acc)%Z -> ((acc + 1) * Z.of_nat (length o) < 2 ^ 63)%Z ->
  offset_step scal (Int acc) (name, o)
  = Ok (Int (acc * Z.of_nat (length o) + Z.of_nat k)).
Proof.
  intros Hscal Hnd Hk Hacc Hb.
  pose proof (lookup_lt_Some _ _ _ Hk) as Hlt.
  unfold offset_step. rewrite Hscal. unfold Series_at.
  rewrite (positions_nth o k v 0 Hnd Hk), Z.add_0_l. simpl.
  destruct o as [|x o]; [done|]. unfold Series_max, radix_step, cell_add, cell_mul.
  rewrite (wrap64_small (_ - 1 + 1)) by nia.
  replace (Z.of_nat (length (x :: o)) - 1 + 1)%Z
    with (Z.of_nat (length (x :: o))) by lia.
  rewrite (wrap64_small (acc * _)) by nia. by rewrite wrap64_small by nia.
Qed.

Lemma foldM_app {A B : Type} (f : A -> B -> result A) (l1 l2 : list B) acc :
  foldM f (l1 ++ l2) acc = acc' ← foldM f l1 acc; foldM f l2 acc'.
Proof.
  revert acc. induction l1 as [|x l1 IH]; intros acc; [done|]. simpl.
  destruct (f acc x); simpl; [apply IH|done].
Qed.

(** ** The calculator of a well-formed configuration *)

Lemma init_well_formed nl :
  well_formed nl ->
  exists taps, tap_df nl = Some taps /\ NoDup taps /\
    TapTapUidCalculator_init nl
    = Ok {| tap_ids := taps;
            segmentation := attribute_segments nl;
            attribute_combination_tuples :=
              itertools_product (map snd (attribute_segments nl));
            ordinalizers :=
              attribute_segments nl ++ [("btap", taps); ("atap", taps)];
            set_names := spec_columns nl |}.
Proof.
  intros [[taps Htaps] Hnames Hb Ha Hvals Hnd].
  exists taps. split; [done|]. split; [by apply Hnd|].
  unfold TapTapUidCalculator_init. rewrite Htaps.
  rewrite !dict_of_pairs_nodup by done.
  rewrite (dict_set_fresh "btap") by done.
  rewrite (dict_set_fresh "atap").
  - by rewrite <- app_assoc.
  - rewrite map_app, in_app_iff. simpl. intros [?|[?|[]]]; [done|discriminate].
Qed.

Lemma num_tuples_app (l1 l2 : list Series) :
  num_tuples (l1 ++ l2) = (num_tuples l1 * num_tuples l2)%nat.
Proof. induction l1 as [|o l1 IH]; simpl; [lia|]. rewrite IH. lia. Qed.

Lemma map_fst_combine {A B : Type} (l : list A) : forall (k : list B),
  length k = length l -> map fst (combine l k) = l.
Proof.
  induction l as [|x l IH]; intros [|y k] Hlen; try done.
  simpl in *. f_equal. apply IH. lia.
Qed.

Lemma segment_items_resolve (Q : string -> Prop) (scal : odict value)
  (segs : list (string * Series)) : forall t,
  Forall2 (fun o v => In v o) (map snd segs) t ->
  Forall2 (fun n v => dict_get n scal = Some v) (map fst segs) t ->
  Forall (fun o => NoDup o) (map snd segs) ->
  (forall n, In n (map fst segs) -> Q n) ->
  Forall2 (fun item v =>
    (Q (fst item) /\ dict_get (fst item) scal = Some v)
    /\ NoDup (snd item) /\ In v (snd item)) segs t.
Proof.
  induction segs as [|[n o] segs IH]; intros t Hin Hget Hnd HQ;
    inversion Hin; inversion Hget; subst; simplify_eq; constructor.
  - apply Forall_cons in Hnd as [? _]. simpl. repeat split; auto.
    apply HQ. by left.
  - apply Forall_cons in Hnd as [_ ?]. apply IH; auto.
    intros n' ?. apply HQ. by right.
Qed.

Lemma rows_num_tuples (segs : list (string * Series)) (taps : Series) :
  num_tuples (map snd (segs ++ [("btap", taps); ("atap", taps)]))
  = (length (itertools_product (map snd segs)) * length taps * length taps)%nat.
Proof. rewrite map_app, num_tuples_app, product_length. simpl. lia. Qed.

Lemma Forall2_conj {X Y : Type} (P Q : X -> Y -> Prop) l k :
  Forall2 P l k -> Forall2 Q l k -> Forall2 (fun x y => P x y /\ Q x y) l k.
Proof.
  induction 1; inversion 1; subst; constructor; auto.
Qed.

Lemma items_of_tuple (segs : list (string * Series)) : forall t,
  Forall2 (fun o v => In v o) (map snd segs) t ->
  Forall (fun o => NoDup o) (map snd segs) ->
  Forall2 (fun item v => NoDup (snd item) /\ In v (snd item)) segs t.
Proof.
  induction segs as [|[name o] segs IH]; intros t Hin Hnd;
    inversion Hin; subst; constructor.
  - apply Forall_cons in Hnd as [? _]. by split.
  - apply Forall_cons in Hnd as [_ ?]. by apply IH.
Qed.

(** The ordinalizers hold, attribute by attribute, the value a key has
    for it. *)
Lemma key_items nl c k :
  well_formed nl -> TapTapUidCalculator_init nl = Ok c ->
  In k (keys c) ->
  Forall2 (fun item v => NoDup (snd item) /\ In v (snd item))
          (ordinalizers c) (tuple_of k).
Proof.
  intros Hwf Hinit Hk.
  destruct (init_well_formed nl Hwf) as (taps & Htaps & Hnd & Hc).
  rewrite Hc in Hinit. injection Hinit as <-.
  unfold keys in Hk. simpl in *.
  apply in_flat_map in Hk as (t & Ht & Hk).
  apply in_flat_map in Hk as (b & Hb' & Hk).
  apply in_map_iff in Hk as (a & <- & Ha'). simpl.
  apply Forall2_app; [|by repeat constructor].
  apply items_of_tuple; [by apply product_In|apply Hwf].
Qed.

(** On a one-row frame that presents a key of the product — each
    attribute in a column of the frame or among the scalar attributes —
    the uid loop computes the mixed-radix value of the key's attribute
    tuple, without wrapping. *)
Lemma get_unique_ids_radix nl c df scal k :
  well_formed nl -> TapTapUidCalculator_init nl = Ok c ->
  (Z.of_nat (fully_populated_rows c) < 2 ^ 63)%Z ->
  In k (keys c) ->
  df_len df = 1%nat ->
  Forall2 (fun item v => row_value df scal (fst item) v)
          (ordinalizers c) (tuple_of k) ->
  exists r, radix (dict_values (ordinalizers c)) (tuple_of k) 0 = Some r
    /\ get_unique_ids c df scal = Ok [Int r].
Proof.
  intros Hwf Hinit Hrows Hk Hlen Hrow.
  pose proof (key_items nl c k Hwf Hinit Hk) as Hitems.
  unfold get_unique_ids, dict_values. rewrite Hlen. simpl.
  destruct (foldM_radix (fun acc => [Int acc]) (uid_step df scal)
              (row_value df scal) (uid_step_single df scal)
              (ordinalizers c) (tuple_of k))
    with (acc := 0%Z) (B := 1%Z) as (r & Hr & _ & Hf).
  - by apply Forall2_conj.
  - lia.
  - destruct (init_well_formed nl Hwf) as (taps & Htaps & Hnd & Hc).
    rewrite Hc in Hinit. injection Hinit as <-.
    unfold fully_populated_rows in Hrows. simpl in *.
    rewrite rows_num_tuples. lia.
  - by exists r.
Qed.

(** The frame and scalar attributes of [compute_uid] present the key. *)
Lemma compute_uid_presents nl c t b a :
  well_formed nl -> TapTapUidCalculator_init nl = Ok c ->
  In (t, b, a) (keys c) ->
  Forall2 (fun item v =>
             row_value {| df_len := 1;
                          df_columns := [("btap", [b]); ("atap", [a])] |}
                       (scalar_attributes_of c t) (fst item) v)
          (ordinalizers c) (tuple_of (t, b, a)).
Proof.
  intros Hwf Hinit Hk.
  destruct (init_well_formed nl Hwf) as (taps & Htaps & Hnd & Hc).
  rewrite Hc in Hinit. injection Hinit as <-.
  destruct Hwf as [_ Hnames Hb Ha Hvals _].
  unfold keys in Hk. simpl in Hk.
  apply in_flat_map in Hk as (t' & Ht & Hk).
  apply in_flat_map in Hk as (b' & Hb' & Hk).
  apply in_map_iff in Hk as (a' & [= -> -> ->] & Ha').
  set (segs := attribute_segments nl) in *.
  pose proof (product_In _ _ Ht) as Hvs.
  assert (Hlen : length t = length (map fst segs)).
  { apply Forall2_length in Hvs. by rewrite length_map in *. }
  unfold scalar_attributes_of, dict_keys. simpl.
  rewrite dict_of_pairs_nodup by (by rewrite map_fst_combine).
  apply Forall2_app.
  - eapply Forall2_impl.
    + apply (segment_items_resolve
               (fun n => n <> "btap" /\ n <> "atap")
               (combine (map fst segs) t) segs t); auto.
      * by apply dict_get_combine.
      * intros n Hn. split; intros ->; auto.
    + intros [n o] v (((Hnb & Hna) & Hget) & Hndo & Hin). simpl in *.
      right. split; [|done]. simpl.
      apply String.eqb_neq in Hnb, Hna. by rewrite Hnb, Hna.
  - repeat constructor; simpl; auto.
Qed.

Lemma compute_uid_radix nl c k :
  well_formed nl -> TapTapUidCalculator_init nl = Ok c ->
  (Z.of_nat (fully_populated_rows c) < 2 ^ 63)%Z ->
  In k (keys c) ->
  exists r, radix (dict_values (ordinalizers c)) (tuple_of k) 0 = Some r
    /\ compute_uid c k = Ok [Int r].
Proof.
  intros Hwf Hinit Hrows Hk. destruct k as [[t b] a].
  apply (get_unique_ids_radix nl c _ _ (t, b, a)); auto.
  by apply compute_uid_presents with nl.
Qed.

(** However a one-row frame and the scalar attributes present a key,
    [get_unique_ids] gives the key's uid. *)
Lemma get_unique_ids_of_key nl c df scal k :
  well_formed nl -> TapTapUidCalculator_init nl = Ok c ->
  (Z.of_nat (fully_populated_rows c) < 2 ^ 63)%Z ->
  In k (keys c) ->
  df_len df = 1%nat ->
  Forall2 (fun item v => row_value df scal (fst item) v)
          (ordinalizers c) (tuple_of k) ->
  get_unique_ids c df scal = compute_uid c k.
Proof.
  intros Hwf Hinit Hrows Hk Hlen Hrow.
  destruct (get_unique_ids_radix nl c df scal k) as (r & Hr & ->); auto.
  destruct (compute_uid_radix nl c k) as (r' & Hr' & ->); auto.
  congruence.
Qed.

Lemma keys_product nl c :
  well_formed nl -> TapTapUidCalculator_init nl = Ok c ->
  map tuple_of (keys c) = itertools_product (dict_values (ordinalizers c)).
Proof.
  intros Hwf Hinit.
  destruct (init_well_formed nl Hwf) as (taps & Htaps & Hnd & Hc).
  rewrite Hc in Hinit. injection Hinit as <-.
  unfold keys, dict_values. simpl.
  rewrite map_app, product_app, map_flat_map. apply flat_map_ext. intros t.
  simpl. rewrite !map_flat_map. apply flat_map_ext. intros b.
  rewrite flat_map_singleton, !map_map. done.
Qed.

(** Enumerated in canonical order, the keys receive the uids
    [0, 1, 2, ...] up to the number of rows of the full table. *)
Lemma compute_uid_enumeration nl c :
  well_formed nl -> TapTapUidCalculator_init nl = Ok c ->
  (Z.of_nat (fully_populated_rows c) < 2 ^ 63)%Z ->
  map (compute_uid c) (keys c)
  = map (fun u => Ok [Int u]) (zrange 0 (fully_populated_rows c)).
Proof.
  intros Hwf Hinit Hrows.
  set (G := fun o : option Z =>
              match o with Some r => Ok [Int r] | None => Raise KeyError end).
  transitivity
    (map G (map (fun t => radix (dict_values (ordinalizers c)) t 0)
                (map tuple_of (keys c)))).
  { rewrite !map_map. apply map_ext_in. intros k Hk.
    destruct (compute_uid_radix nl c k Hwf Hinit Hrows Hk) as (r & Hr & ->).
    by rewrite Hr. }
  rewrite (keys_product nl c Hwf Hinit).
  destruct (init_well_formed nl Hwf) as (taps & Htaps & Hnd & Hc).
  rewrite Hc in Hinit. injection Hinit as <-.
  unfold dict_values, fully_populated_rows. simpl.
  rewrite radix_product.
  - rewrite rows_num_tuples, map_map. done.
  - rewrite map_app. apply Forall_app. split; [apply Hwf|].
    by repeat constructor.
Qed.

(** A function whose images along a list are pairwise distinct is
    injective on that list. *)
Lemma NoDup_map_injective {A B : Type} (f : A -> B) (l : list A) :
  NoDup (map f l) ->
  forall x y, In x l -> In y l -> f x = f y -> x = y.
Proof.
  induction l as [|z l IH]; intros Hnd x y Hx Hy Hxy; [done|].
  simpl in Hnd. apply NoDup_cons in Hnd as [Hz Hnd].
  rewrite list_elem_of_In, in_map_iff in Hz.
  destruct Hx as [<-|Hx], Hy as [<-|Hy]; auto.
  - destruct Hz. by exists y.
  - destruct Hz. by exists x.
Qed.

Lemma product_In_iff {A : Type} (ords : list (list A)) t :
  In t (itertools_product ords) <-> Forall2 (fun o v => In v o) ords t.
Proof.
  split; [apply product_In|].
  induction 1 as [|o v ords t Hv _ IH]; simpl; [by left|].
  apply in_flat_map. exists v. split; [done|]. by apply in_map.
Qed.

Lemma arange_zrange n : arange n = zrange 0 n.
Proof. unfold arange, zrange. apply map_ext. intros; lia. Qed.

Lemma scenario_well_formed sets : well_formed (scenario_los sets).
Proof.
  split; simpl.
  - by eexists.
  - compute_done.
  - intros [?|[]]; discriminate.
  - intros [?|[]]; discriminate.
  - constructor; [compute_done|constructor].
  - intros taps [= <-]. compute_done.
Qed.

(** The keys are all the combinations of a value per segment attribute
    with an origin and a destination tap. *)
Lemma In_keys nl c :
  well_formed nl -> TapTapUidCalculator_init nl = Ok c ->
  forall t b a, In (t, b, a) (keys c) <->
    Forall2 (fun item v => In v (snd item)) (segmentation c) t
    /\ In b (tap_ids c) /\ In a (tap_ids c).
Proof.
  intros Hwf Hinit t b a.
  destruct (init_well_formed nl Hwf) as (taps & _ & _ & Hc).
  rewrite Hc in Hinit. injection Hinit as <-. unfold keys. simpl.
  assert (Hiff : Forall2 (fun item v => In v (snd item))
                   (attribute_segments nl) t
                 <-> In t (itertools_product (map snd (attribute_segments nl)))).
  { by rewrite product_In_iff, Forall2_map_left. }
  rewrite Hiff. split.
  - intros Hk.
    apply in_flat_map in Hk as (t' & Ht & Hk).
    apply in_flat_map in Hk as (b' & Hb & Hk).
    by apply in_map_iff in Hk as (a' & [= -> -> ->] & Ha).
  - intros (Ht & Hb & Ha).
    apply in_flat_map. exists t. split; [done|].
    apply in_flat_map. exists b. split; [done|].
    by apply (in_map (fun a => (t, b, a))).
Qed.

(** ** C1: the uid computation is a bijection onto the full range *)

(** C1. For a well-formed segmentation configuration and tap set whose
    full table numpy can index ([fully_populated_uids] returns), the uid
    computation of [get_unique_ids] — attributes in canonical order,
    [uid = uid * cardinality + ordinal] — maps the full Cartesian product
    of attribute values and origin/destination tap pairs injectively
    onto the contiguous range [0, fully_populated_rows), which is the
    range [fully_populated_uids] produces; in canonical order the keys
    receive the uids 0, 1, 2, ...  The uid of a key does not depend on
    how a one-row frame presents it, each attribute being a column of
    the frame or a scalar attribute. *)
Theorem uid_bijection nl c uids :
  well_formed nl ->
  TapTapUidCalculator_init nl = Ok c ->
  fully_populated_uids c = Ok uids ->
  (forall t b a, In (t, b, a) (keys c) <->
     Forall2 (fun item v => In v (snd item)) (segmentation c) t
     /\ In b (tap_ids c) /\ In a (tap_ids c))
  /\ (forall u, In u uids <-> (0 <= u < Z.of_nat (fully_populated_rows c))%Z)
  /\ map (compute_uid c) (keys c) = map (fun u => Ok [Int u]) uids
  /\ (forall k, In k (keys c) ->
        exists u, compute_uid c k = Ok [Int u] /\ In u uids)
  /\ (forall k1 k2, In k1 (keys c) -> In k2 (keys c) ->
        compute_uid c k1 = compute_uid c k2 -> k1 = k2)
  /\ (forall u, In u uids ->
        exists k, In k (keys c) /\ compute_uid c k = Ok [Int u])
  /\ (forall df scalar_attributes k,
        In k (keys c) -> df_len df = 1%nat ->
        Forall2 (fun item v => row_value df scalar_attributes (fst item) v)
                (ordinalizers c) (tuple_of k) ->
        get_unique_ids c df scalar_attributes = compute_uid c k).
Proof.
  intros Hwf Hinit Huids.
  unfold fully_populated_uids in Huids.
  destruct (Z.ltb_spec (Z.of_nat (fully_populated_rows c)) (2 ^ 63))
    as [Hrows|]; [|discriminate].
  injection Huids as <-. rewrite arange_zrange.
  pose proof (compute_uid_enumeration nl c Hwf Hinit Hrows) as Henum.
  assert (Hinj : forall u v : Z,
            (Ok [Int u] : result (list cell)) = Ok [Int v] -> u = v)
    by (intros u v [= ->]; done).
  split; [exact (In_keys nl c Hwf Hinit)|].
  split; [intros u; rewrite In_zrange; lia|].
  split; [exact Henum|].
  split; [|split; [|split]].
  - intros k Hk. apply (in_map (compute_uid c)) in Hk.
    rewrite Henum in Hk. apply in_map_iff in Hk as (u & Hu & Hin). eauto.
  - apply NoDup_map_injective. rewrite Henum.
    apply NoDup_fmap_2; [|apply NoDup_zrange]. exact Hinj.
  - intros u Hu. apply (in_map (fun u => Ok [Int u])) in Hu.
    rewrite <- Henum in Hu. apply in_map_iff in Hu as (k & Hk & Hin). eauto.
  - intros df scal k Hk Hlen Hrow.
    by apply get_unique_ids_of_key with nl.
Qed.

Lemma uid_bijection_witness :
  map (compute_uid (scenario_calculator ["set1"]))
      (keys (scenario_calculator ["set1"]))
  = map (fun u => Ok [Int u]) (arange 8).
Proof.
  apply (uid_bijection (scenario_los ["set1"]) (scenario_calculator ["set1"])
           (arange 8)).
  - apply scenario_well_formed.
  - reflexivity.
  - reflexivity.
Defined.

(** ** C3: the worked scenario *)

(** C3. With segmentation {tod: [AM, MD]} and access points [10, 20],
    whatever the utility sets: the calculator's fully populated shape is
    (8, num_sets); the uid for scalar attribute tod = AM and the row
    btap = 10, atap = 10 is 0; the uid for tod = MD and the row
    btap = 20, atap = 20 is 7. *)
Theorem scenario_uids (sets : list string) :
  exists c, TapTapUidCalculator_init (scenario_los sets) = Ok c
    /\ fully_populated_shape c = (8%nat, length sets)
    /\ get_unique_ids c (od_row (VInt 10) (VInt 10)) [("tod", VStr "AM")]
       = Ok [Int 0]
    /\ get_unique_ids c (od_row (VInt 20) (VInt 20)) [("tod", VStr "MD")]
       = Ok [Int 7].
Proof.
  exists (scenario_calculator sets).
  split; [reflexivity|]. split; [reflexivity|].
  split; vm_compute; reflexivity.
Qed.

(** ** C9: enumerating the segment combinations *)

Lemma generator_list_from (c : TapTapUidCalculator) names : forall fuel pos,
  (length (attribute_combination_tuples c) - pos < fuel)%nat ->
  generator_list fuel c (GenSuspended names pos)
  = Some (map (fun t => dict_of_pairs (combine names t))
              (drop pos (attribute_combination_tuples c))).
Proof.
  induction fuel as [|fuel IH]; intros pos Hfuel; [lia|].
  simpl. unfold generator_resume.
  destruct (attribute_combination_tuples c !! pos) as [t|] eqn:Hpos.
  - pose proof (lookup_lt_Some _ _ _ Hpos).
    rewrite IH by lia. by rewrite (drop_S _ _ _ Hpos).
  - apply lookup_ge_None in Hpos. by rewrite drop_ge.
Qed.

Lemma generator_list_fresh (c : TapTapUidCalculator) fuel :
  (length (attribute_combination_tuples c) < fuel)%nat ->
  generator_list fuel c (each_scalar_attribute_combination c)
  = Some (map (scalar_attributes_of c) (attribute_combination_tuples c)).
Proof.
  intros Hfuel.
  pose proof (generator_list_from c (dict_keys (segmentation c)) fuel 0) as H.
  destruct fuel as [|fuel]; [lia|]. simpl in *. by rewrite H by lia.
Qed.

(** For the scalar attributes of a segment tuple, [get_skim_offset]
    computes the mixed-radix value of the tuple. *)
Lemma skim_offset_radix nl c t :
  well_formed nl -> TapTapUidCalculator_init nl = Ok c ->
  (Z.of_nat (length (attribute_combination_tuples c)) < 2 ^ 63)%Z ->
  In t (attribute_combination_tuples c) ->
  exists r, radix (dict_values (segmentation c)) t 0 = Some r
    /\ get_skim_offset c (scalar_attributes_of c t) = Ok (Int r).
Proof.
  intros Hwf Hinit Hn Ht.
  destruct (init_well_formed nl Hwf) as (taps & Htaps & Hnd & Hc).
  rewrite Hc in Hinit. injection Hinit as <-.
  destruct Hwf as [_ Hnames Hb Ha Hvals _].
  set (segs := attribute_segments nl) in *.
  unfold get_skim_offset, scalar_attributes_of, dict_keys, dict_values in *.
  simpl in *.
  pose proof (product_In _ _ Ht) as Hvs.
  assert (Hlen : length t = length (map fst segs)).
  { apply Forall2_length in Hvs. by rewrite length_map in *. }
  rewrite dict_of_pairs_nodup by (by rewrite map_fst_combine).
  set (scal := combine (map fst segs) t).
  destruct (foldM_radix Int (offset_step scal)
              (fun name v => dict_get name scal = Some v)
              (offset_step_hit scal) segs t)
    with (acc := 0%Z) (B := 1%Z) as (r & Hr & _ & Hf).
  - eapply Forall2_impl.
    + apply (segment_items_resolve (fun _ => True) scal segs t); auto.
      by apply dict_get_combine.
    + intros [n o] v ((_ & Hget) & Hndo & Hin). done.
  - lia.
  - rewrite product_length in Hn. lia.
  - exists r. split; [done|]. rewrite foldM_app, Hf. simpl.
    rewrite !dict_get_notin; [done|unfold scal..];
      by rewrite map_fst_combine.
Qed.

Lemma init_combination_tuples nl c :
  TapTapUidCalculator_init nl = Ok c ->
  attribute_combination_tuples c
  = itertools_product (dict_values (segmentation c)).
Proof.
  unfold TapTapUidCalculator_init.
  destruct (tap_df nl); [|discriminate]. by intros [= <-].
Qed.

(** C9. Enumerating the segment combinations is deterministic and
    restartable: every call of [each_scalar_attribute_combination]
    creates a generator that, drained with any sufficient number of
    [next] calls, yields the same finite sequence, one scalar-attribute
    mapping per tuple of the Cartesian product of the segmentation
    values, in the product's order.  For a well-formed configuration
    that is the order of uid composition: the mapping yielded at
    position [k] pairs the attribute names with the [k]-th tuple, and
    [get_skim_offset] ranks it [k]. *)
Theorem segment_enumeration_restartable nl c :
  TapTapUidCalculator_init nl = Ok c ->
  exists combinations,
    (forall fuel1 fuel2,
       (length (attribute_combination_tuples c) < fuel1)%nat ->
       (length (attribute_combination_tuples c) < fuel2)%nat ->
       generator_list fuel1 c (each_scalar_attribute_combination c)
         = Some combinations
       /\ generator_list fuel2 c (each_scalar_attribute_combination c)
         = Some combinations)
    /\ combinations
       = map (scalar_attributes_of c)
             (itertools_product (dict_values (segmentation c)))
    /\ (well_formed nl ->
        (Z.of_nat (length (attribute_combination_tuples c)) < 2 ^ 63)%Z ->
        combinations
        = map (fun t => combine (dict_keys (segmentation c)) t)
              (itertools_product (dict_values (segmentation c)))
        /\ map (get_skim_offset c) combinations
           = map (fun k => Ok (Int k)) (zrange 0 (length combinations))).
Proof.
  intros Hinit.
  exists (map (scalar_attributes_of c) (attribute_combination_tuples c)).
  split; [|split; [|intros Hwf Hn; split]].
  - intros fuel1 fuel2 H1 H2. by rewrite !generator_list_fresh.
  - by rewrite (init_combination_tuples nl c Hinit).
  - destruct (init_well_formed nl Hwf) as (taps & Htaps & Hnd & Hc).
    rewrite Hc in Hinit. injection Hinit as <-.
    unfold scalar_attributes_of, dict_keys, dict_values. simpl.
    apply map_ext_in. intros t Ht%product_In.
    apply dict_of_pairs_nodup. rewrite map_fst_combine; [apply Hwf|].
    apply Forall2_length in Ht. by rewrite !length_map in *.
  - set (G := fun o : option Z =>
                match o with Some r => Ok (Int r) | None => Raise KeyError end).
    rewrite length_map.
    transitivity
      (map G (map (fun t => radix (dict_values (segmentation c)) t 0)
                  (attribute_combination_tuples c))).
    { rewrite !map_map. apply map_ext_in. intros t Ht.
      destruct (skim_offset_radix nl c t Hwf Hinit Hn Ht) as (r & Hr & ->).
      by rewrite Hr. }
    destruct (init_well_formed nl Hwf) as (taps & Htaps & Hnd & Hc).
    rewrite Hc in Hinit. injection Hinit as <-.
    unfold dict_values. simpl.
    rewrite radix_product by apply Hwf.
    by rewrite product_length, map_map.
Qed.

Lemma segment_enumeration_restartable_witness :
  exists combinations,
    generator_list 3 (scenario_calculator ["set1"])
      (each_scalar_attribute_combination (scenario_calculator ["set1"]))
    = Some combinations
    /\ combinations = [[("tod", VStr "AM")]; [("tod", VStr "MD")]]
    /\ map (get_skim_offset (scenario_calculator ["set1"])) combinations
       = [Ok (Int 0); Ok (Int 1)].
Proof.
  destruct (segment_enumeration_restartable (scenario_los ["set1"])
              (scenario_calculator ["set1"]))
    as (combinations & Hgen & _ & Hwf); [reflexivity|].
  destruct Hwf as [Hprod Hoff]; [apply scenario_well_formed|reflexivity|].
  exists combinations. split; [apply (Hgen 3%nat 3%nat); simpl; lia|].
  split; [exact Hprod|]. rewrite Hoff, Hprod. reflexivity.
Defined.

(** ** The origin/destination frame of a segment combination *)

Lemma uid_step_scalar_vec df scal (m : nat) acc name (o : Series) v (k : nat) :
  dict_get name (df_columns df) = None /\ dict_get name scal = Some v ->
  NoDup o -> o !! k = Some v ->
  (0 <= acc)%Z -> ((acc + 1) * Z.of_nat (length o) < 2 ^ 63)%Z ->
  uid_step df scal (repeat (Int acc) m) (name, o)
  = Ok (repeat (Int (acc * Z.of_nat (length o) + Z.of_nat k)) m).
Proof.
  intros [Hcol Hscal] Hnd Hk Hacc Hb.
  pose proof (lookup_lt_Some _ _ _ Hk) as Hlt.
  unfold uid_step. rewrite (cardinality_eq o k v Hk) by nia.
  rewrite Hcol, Hscal. unfold Series_at.
  rewrite (positions_nth o k v 0 Hnd Hk), Z.add_0_l. simpl.
  by rewrite map_repeat, radix_step_eq by lia.
Qed.

Lemma ordinal_nth (o : Series) (k : nat) v :
  NoDup o -> o !! k = Some v -> ordinal v o = Z.of_nat k.
Proof. intros Hnd Hk. unfold ordinal. by rewrite (index_of_nth o k v). Qed.

Lemma uid_step_column_vec df scal name (o : Series) col (us : list Z) :
  dict_get name (df_columns df) = Some col -> NoDup o ->
  Forall2 (fun u v =>
    ((0 <= u)%Z /\ ((u + 1) * Z.of_nat (length o) < 2 ^ 63)%Z) /\ In v o)
    us col ->
  uid_step df scal (map Int us) (name, o)
  = Ok (map Int (zip_with (fun u v =>
                   (u * Z.of_nat (length o) + ordinal v o)%Z) us col)).
Proof.
  intros Hcol Hnd Hall. unfold uid_step. rewrite Hcol.
  unfold Series_map, is_unique. rewrite bool_decide_eq_true_2 by done.
  simpl. f_equal. clear Hcol.
  induction Hall as [|u v us col [[Hu Hb] Hin] _ IH]; [done|].
  simpl. f_equal; [|exact IH].
  apply list_elem_of_In, list_elem_of_lookup_1 in Hin as [k Hk].
  pose proof (lookup_lt_Some _ _ _ Hk) as Hlt.
  rewrite (cardinality_eq o k v Hk) by nia.
  rewrite (positions_nth o k v 0 Hnd Hk), Z.add_0_l.
  rewrite (ordinal_nth o k v Hnd Hk). by rewrite radix_step_eq by lia.
Qed.

Lemma Forall2_of_Forall {X Y : Type} (P : X -> Prop) (Q : Y -> Prop) l :
  forall k, length l = length k -> Forall P l -> Forall Q k ->
  Forall2 (fun x y => P x /\ Q y) l k.
Proof.
  induction l as [|x l IH]; intros [|y k] Hlen HP HQ; try done.
  apply Forall_cons in HP as [? ?]. apply Forall_cons in HQ as [? ?].
  constructor; [done|]. apply IH; auto.
Qed.

Lemma zip_with_repeat_l {X Y Z' : Type} (f : X -> Y -> Z') x (k : list Y) :
  zip_with f (repeat x (length k)) k = map (f x) k.
Proof. induction k as [|y k IH]; [done|]. simpl. by rewrite IH. Qed.

Lemma np_repeat_length {X : Type} (l : list X) n :
  length (np_repeat l n) = (length l * n)%nat.
Proof.
  unfold np_repeat. induction l as [|x l IH]; [done|]. simpl.
  by rewrite length_app, repeat_length, IH.
Qed.

Lemma np_tile_length {X : Type} (l : list X) n :
  length (np_tile l n) = (n * length l)%nat.
Proof.
  unfold np_tile. induction n as [|n IH]; [done|]. simpl.
  by rewrite length_app, IH.
Qed.

(** Row by row, the two columns of the frame pair every origin with
    every destination, destinations advancing fastest. *)
Lemma zip_repeat_tile {X : Type} (l1 l2 : list X) :
  zip (np_repeat l1 (length l2)) (np_tile l2 (length l1))
  = flat_map (fun b => map (pair b) l2) l1.
Proof.
  unfold np_repeat, np_tile. induction l1 as [|x l1 IH]; [done|]. simpl.
  rewrite (zip_with_app pair (repeat x (length l2)))
    by apply repeat_length.
  by rewrite IH, zip_with_repeat_l.
Qed.

Lemma flat_map_ext_In {X Y : Type} (f g : X -> list Y) (l : list X) :
  (forall x, In x l -> f x = g x) -> flat_map f l = flat_map g l.
Proof.
  induction l as [|x l IH]; intros H; [done|]. simpl.
  rewrite (H x) by (by left). rewrite IH; [done|].
  intros y Hy. apply H. by right.
Qed.

Lemma In_np_repeat {X : Type} (l : list X) n x : In x (np_repeat l n) -> In x l.
Proof.
  unfold np_repeat. intros (y & Hy & Hx)%in_flat_map.
  by apply repeat_spec in Hx as ->.
Qed.

Lemma In_np_tile {X : Type} (l : list X) n x : In x (np_tile l n) -> In x l.
Proof.
  unfold np_tile. intros (l' & Hl & Hx)%in_concat.
  by apply repeat_spec in Hl as ->.
Qed.

Lemma ordinal_range (o : Series) v :
  NoDup o -> In v o ->
  index_of v o = Some (ordinal v o)
  /\ (0 <= ordinal v o < Z.of_nat (length o))%Z.
Proof.
  intros Hnd [k Hk]%list_elem_of_In%list_elem_of_lookup_1.
  pose proof (lookup_lt_Some _ _ _ Hk).
  rewrite (ordinal_nth o k v Hnd Hk), (index_of_nth o k v Hnd Hk).
  split; [done|lia].
Qed.

(** The position of a segment tuple in [attribute_combination_tuples]
    is its mixed-radix value. *)
Lemma combination_rank nl c (k : nat) t :
  well_formed nl -> TapTapUidCalculator_init nl = Ok c ->
  attribute_combination_tuples c !! k = Some t ->
  radix (dict_values (segmentation c)) t 0 = Some (Z.of_nat k).
Proof.
  intros Hwf Hinit Hk.
  destruct (init_well_formed nl Hwf) as (taps & Htaps & Hnd & Hc).
  rewrite Hc in Hinit. injection Hinit as <-.
  unfold dict_values in *. simpl in *.
  pose proof (radix_product (map snd (attribute_segments nl)) 0
                (wf_values nl Hwf)) as Hrp.
  apply (f_equal (fun l => l !! k)) in Hrp.
  rewrite !list_lookup_fmap, Hk, zrange_lookup in Hrp.
  apply lookup_lt_Some in Hk. rewrite product_length in Hk.
  rewrite decide_True in Hrp by done. simpl in Hrp.
  injection Hrp as Hrp. rewrite Hrp. f_equal; lia.
Qed.

(** The two taps of a frame row, composed onto the rank of the segment
    combination, count through the combination's block. *)
Lemma tap_pairs_block (taps : Series) (k : Z) :
  NoDup taps ->
  map (fun ba : value * value =>
         ((k * Z.of_nat (length taps) + ordinal (fst ba) taps)
          * Z.of_nat (length taps) + ordinal (snd ba) taps)%Z)
      (flat_map (fun b => map (pair b) taps) taps)
  = zrange (k * Z.of_nat (length taps * length taps))
           (length taps * length taps).
Proof.
  intros Hnd.
  pose proof (radix_product [taps; taps] k) as Hrp. simpl in Hrp.
  rewrite Nat.mul_1_r in Hrp.
  assert (Hsome : forall l1 l2 : list Z, map Some l1 = map Some l2 -> l1 = l2).
  { intros l1 l2 H. apply (f_equal (map (default 0%Z))) in H.
    by rewrite !map_map, !map_id in H. }
  apply Hsome. rewrite <- Hrp by (by repeat constructor).
  rewrite !map_flat_map. apply flat_map_ext_In. intros b Hb.
  rewrite flat_map_singleton, !map_map. apply map_ext_in. intros a Ha.
  simpl.
  destruct (ordinal_range taps b Hnd Hb) as [-> _].
  by destruct (ordinal_range taps a Hnd Ha) as [-> _].
Qed.

(** What [get_od_dataframe] returns for the [k]-th segment
    combination. *)
Lemma get_od_dataframe_run nl c (k : nat) t :
  well_formed nl -> TapTapUidCalculator_init nl = Ok c ->
  (Z.of_nat (fully_populated_rows c) < 2 ^ 63)%Z ->
  (Z.of_nat (length (attribute_combination_tuples c)) < 2 ^ 63)%Z ->
  attribute_combination_tuples c !! k = Some t ->
  get_od_dataframe c (scalar_attributes_of c t)
  = Ok (map Int (zrange (Z.of_nat k * Z.of_nat (df_len (od_frame c)))
                        (df_len (od_frame c))),
        od_frame c).
Proof.
  intros Hwf Hinit Hrows Hcombos Hk.
  pose proof (combination_rank nl c k t Hwf Hinit Hk) as Hrank.
  pose proof (lookup_lt_Some _ _ _ Hk) as Hklt.
  apply list_elem_of_lookup_2, list_elem_of_In in Hk.
  destruct (init_well_formed nl Hwf) as (taps & Htaps & Hnd & Hc).
  rewrite Hc in Hinit. injection Hinit as <-.
  destruct Hwf as [_ Hnames Hb Ha Hvals _].
  set (segs := attribute_segments nl) in *.
  unfold get_od_dataframe, fully_populated_rows, dict_values in *.
  simpl in *.
  set (n := length taps) in *.
  set (od := {| df_len := (n * n)%nat;
                df_columns := [("btap", np_repeat taps n);
                               ("atap", np_tile taps n)] |}).
  change (od_frame _) with od.
  rewrite product_length in Hcombos, Hklt, Hrows.
  set (N := num_tuples (map snd segs)) in *.
  assert (Huid : get_unique_ids
                   {| tap_ids := taps; segmentation := segs;
                      attribute_combination_tuples :=
                        itertools_product (map snd segs);
                      ordinalizers := segs ++ [("btap", taps); ("atap", taps)];
                      set_names := spec_columns nl |}
                   od (scalar_attributes_of
                         {| tap_ids := taps; segmentation := segs;
                            attribute_combination_tuples :=
                              itertools_product (map snd segs);
                            ordinalizers :=
                              segs ++ [("btap", taps); ("atap", taps)];
                            set_names := spec_columns nl |} t)
                 = Ok (map Int (zrange (Z.of_nat k * Z.of_nat (n * n)) (n * n)))).
  { pose proof (product_In _ _ Hk) as Hvs.
    assert (Hlen : length t = length (map fst segs)).
    { apply Forall2_length in Hvs. by rewrite length_map in *. }
    unfold get_unique_ids, scalar_attributes_of, dict_keys. simpl.
    rewrite dict_of_pairs_nodup by (by rewrite map_fst_combine).
    set (scal := combine (map fst segs) t).
    rewrite foldM_app.
    destruct (foldM_radix (fun acc => repeat (Int acc) (n * n))
                (uid_step od scal)
                (fun name v => dict_get name (df_columns od) = None
                               /\ dict_get name scal = Some v)
                (uid_step_scalar_vec od scal (n * n)) segs t)
      with (acc := 0%Z) (B := 1%Z) as (r & Hr & _ & Hf).
    { eapply Forall2_impl.
      - apply (segment_items_resolve
                 (fun name => name <> "btap" /\ name <> "atap") scal segs t);
          auto.
        + by apply dict_get_combine.
        + intros name Hname. split; intros ->; auto.
      - intros [name o] v (((Hnb & Hna) & Hget) & Hndo & Hin). simpl in *.
        split; [|done]. split; [|done].
        apply String.eqb_neq in Hnb, Hna. by rewrite Hnb, Hna. }
    { lia. }
    { fold N. lia. }
    rewrite Hf. rewrite Hrank in Hr. injection Hr as <-.
    cbn [mbind result_bind foldM].
    assert (HB : Forall (fun v => In v taps) (np_repeat taps n))
      by (apply List.Forall_forall; intros v; apply In_np_repeat).
    assert (HA : Forall (fun v => In v taps) (np_tile taps n))
      by (apply List.Forall_forall; intros v; apply In_np_tile).
    replace (repeat (Int (Z.of_nat k)) (n * n))
      with (map Int (repeat (Z.of_nat k) (n * n))) by apply map_repeat.
    rewrite (uid_step_column_vec od scal "btap" taps (np_repeat taps n));
      [|done|done|].
    2: { apply Forall2_of_Forall; [|apply List.Forall_forall|done].
         - by rewrite repeat_length, np_repeat_length.
         - intros u Hu. apply repeat_spec in Hu as ->.
           fold n. nia. }
    cbn [mbind result_bind].
    replace (n * n)%nat with (length (np_repeat taps n))
      by apply np_repeat_length.
    rewrite zip_with_repeat_l.
    rewrite (uid_step_column_vec od scal "atap" taps (np_tile taps n));
      [|done|done|].
    2: { apply Forall2_of_Forall; [|apply List.Forall_forall|done].
         - by rewrite length_map, np_repeat_length, np_tile_length.
         - intros u (b & <- & Hbin%In_np_repeat)%in_map_iff.
           destruct (ordinal_range taps b Hnd Hbin) as [_ Hob].
           fold n in Hob |- *. nia. }
    cbn [mbind result_bind]. do 2 f_equal.
    rewrite np_repeat_length. fold n.
    rewrite zip_with_fmap_l, zip_with_zip.
    rewrite (zip_repeat_tile taps taps
               : zip (np_repeat taps n) (np_tile taps n) = _).
    pose proof (tap_pairs_block taps (Z.of_nat k) Hnd) as Hblock.
    fold n in Hblock. rewrite <- Hblock.
    apply map_ext. by intros [b a]. }
  rewrite Huid. simpl.
  unfold duplicated_any. rewrite bool_decide_eq_true_2; [done|].
  apply NoDup_fmap_2; [|apply NoDup_zrange]. by intros u v [= ->].
Qed.

(** For the [k]-th segment combination, [get_od_dataframe] succeeds (its
    own duplicate assertion holds) and indexes the frame by the block of
    uids [k * n * n, (k + 1) * n * n), [n] the number of taps: all rows
    of one combination have adjacent uids, in row order. *)
Theorem od_dataframe_block nl c (k : nat) t :
  well_formed nl -> TapTapUidCalculator_init nl = Ok c ->
  (Z.of_nat (fully_populated_rows c) < 2 ^ 63)%Z ->
  (Z.of_nat (length (attribute_combination_tuples c)) < 2 ^ 63)%Z ->
  attribute_combination_tuples c !! k = Some t ->
  get_od_dataframe c (scalar_attributes_of c t)
  = Ok (map Int (zrange (Z.of_nat k * Z.of_nat (df_len (od_frame c)))
                        (df_len (od_frame c))),
        od_frame c).
Proof. apply get_od_dataframe_run. Qed.

Lemma flat_map_by_position {X Y : Type} (f : X -> list Y) (g : nat -> list Y)
  (l : list X) : forall start,
  (forall k x, l !! k = Some x -> f x = g (start + k)%nat) ->
  flat_map f l = flat_map g (seq start (length l)).
Proof.
  induction l as [|x l IH]; intros start H; [done|]. simpl.
  rewrite (H 0%nat x eq_refl), Nat.add_0_r. f_equal.
  apply IH. intros k y Hk. rewrite (H (S k) y Hk). f_equal. lia.
Qed.

(** Going through the segment combinations in order, the indexes of
    their origin/destination frames, one after the other, are the uids
    of the fully populated table in ascending order. *)
Theorem od_blocks_cover nl c uids :
  well_formed nl -> TapTapUidCalculator_init nl = Ok c ->
  fully_populated_uids c = Ok uids ->
  (Z.of_nat (length (attribute_combination_tuples c)) < 2 ^ 63)%Z ->
  flat_map (od_index c) (attribute_combination_tuples c) = map Int uids.
Proof.
  intros Hwf Hinit Huids Hcombos.
  unfold fully_populated_uids in Huids.
  destruct (Z.ltb_spec (Z.of_nat (fully_populated_rows c)) (2 ^ 63))
    as [Hrows|]; [|discriminate].
  injection Huids as <-. rewrite arange_zrange.
  set (m := df_len (od_frame c)).
  rewrite (flat_map_by_position (od_index c)
             (fun k => map Int (zrange (Z.of_nat k * Z.of_nat m) m)) _ 0).
  - rewrite <- flat_map_map with (g := Z.of_nat)
        (f := fun i => map Int (zrange (i * Z.of_nat m) m)).
    change (map Z.of_nat (seq 0 ?n)) with (arange n).
    rewrite arange_zrange, <- map_flat_map, zrange_blocks. f_equal.
    unfold fully_populated_rows, m. simpl. f_equal; lia.
  - intros k t Hk. unfold od_index.
    by rewrite (get_od_dataframe_run nl c k t Hwf Hinit Hrows Hcombos Hk).
Qed.

Lemma od_blocks_cover_witness :
  od_index (scenario_calculator ["set1"]) [VStr "AM"]
    ++ od_index (scenario_calculator ["set1"]) [VStr "MD"]
  = map Int (arange 8).
Proof.
  rewrite <- (od_blocks_cover (scenario_los ["set1"])
                (scenario_calculator ["set1"]) (arange 8)).
  - reflexivity.
  - apply scenario_well_formed.
  - reflexivity.
  - reflexivity.
  - reflexivity.
Defined.

Lemma od_dataframe_block_witness :
  get_od_dataframe (scenario_calculator ["set1"]) [("tod", VStr "MD")]
  = Ok ([Int 4; Int 5; Int 6; Int 7], od_frame (scenario_calculator ["set1"])).
Proof.
  apply (od_dataframe_block (scenario_los ["set1"])
           (scenario_calculator ["set1"]) 1 [VStr "MD"]).
  - apply scenario_well_formed.
  - reflexivity.
  - reflexivity.
  - reflexivity.
  - reflexivity.
Defined.

(** ** The cache store *)

Ltac run_store :=
  repeat (progress
    (unfold run, mbind, M_bind, mret, M_ret, raise, lift, assert_, check,
       self, world, update_self, update_world, emit in *;
     simpl in * )).

Lemma duplicated_any_false {A : Type} `{EqDecision A} (l : list A) :
  duplicated_any l = false <-> NoDup l.
Proof.
  unfold duplicated_any. rewrite negb_false_iff. apply bool_decide_eq_true.
Qed.

Lemma duplicated_any_true {A : Type} `{EqDecision A} (l : list A) :
  duplicated_any l = true <-> ~ NoDup l.
Proof.
  unfold duplicated_any. rewrite negb_true_iff. apply bool_decide_eq_false.
Qed.

(** What [extend_table] does, case by case. *)
Lemma extend_table_run s w new_rows :
  run (extend_table new_rows) s w =
  if (0 <? length new_rows)%nat && is_open s && negb (fully_populated s)
  then ((if duplicated_any (table_index (rows_of (_df s) ++ new_rows))
         then Raise AssertionError else Ok tt),
        (extended new_rows s, w))
  else (Raise AssertionError, (s, w)).
Proof.
  unfold extend_table, is_fully_populated, the_df, fully_populated, extended.
  run_store.
  destruct (0 <? length new_rows)%nat; run_store; [|done].
  destruct (is_open s) eqn:Hopen; run_store; [|done].
  rewrite ?Hopen; run_store.
  destruct (_df s) as [t|]; run_store.
  - destruct (length t =? _)%nat; run_store; [done|].
    by destruct (duplicated_any _).
  - by destruct (duplicated_any _).
Qed.

Lemma append_inj_l (a x y : string) : a +:+ x = a +:+ y -> x = y.
Proof.
  induction a as [|ch a IH]; simpl; [done|]. intros [= H]. by apply IH.
Qed.

Lemma cache_file_inj s x y : cache_file s x = cache_file s y -> x = y.
Proof.
  unfold cache_file. intros H.
  by do 4 apply append_inj_l in H.
Qed.

Lemma flush_unchanged s w t :
  is_open s = true -> _df s = Some t -> NoDup (table_index t) ->
  is_changed s = false ->
  run flush s w = (Ok tt, (s, w)).
Proof.
  intros Hopen Hdf Hnd%duplicated_any_false Hch.
  unfold flush, the_df. run_store.
  rewrite Hopen. run_store. rewrite Hdf. run_store.
  rewrite Hnd. run_store. by rewrite Hch.
Qed.

Lemma flush_partial s w t :
  is_open s = true -> _df s = Some t -> NoDup (table_index t) ->
  is_changed s = true -> fully_populated s = false ->
  run flush s w =
  let s' := if rebuild_tvpb_cache (network_los s)
            then set_is_changed false s else s in
  let w1 := if rebuild_tvpb_cache (network_los s)
            then store_file (ToFeather (cache_file s "feather"))
                            (cache_file s "feather") (FeatherFile t) w
            else w in
  let w2 := if trace_tvpb_cache_as_csv (network_los s)
            then store_file (ToCsv (cache_file s "csv"))
                            (cache_file s "csv") (CsvFile t) w1
            else w1 in
  (Ok tt, (s', w2)).
Proof.
  intros Hopen Hdf Hnd%duplicated_any_false Hch Hfull.
  unfold fully_populated in Hfull. rewrite Hdf in Hfull.
  unfold flush, the_df, is_fully_populated, cache_path, to_feather, to_csv.
  run_store.
  rewrite Hopen. run_store. rewrite Hdf. run_store.
  rewrite Hnd. run_store. rewrite Hch. run_store.
  rewrite Hopen. run_store. rewrite Hdf. run_store. rewrite Hfull. run_store.
  destruct (rebuild_tvpb_cache (network_los s)); run_store;
    by destruct (trace_tvpb_cache_as_csv (network_los s)).
Qed.

Lemma flush_full s w :
  is_open s = true -> is_changed s = true -> fully_populated s = true ->
  run flush s w = (Raise AssertionError, (s, w)).
Proof.
  intros Hopen Hch Hfull. unfold fully_populated in Hfull.
  destruct (_df s) as [t|] eqn:Hdf; [|discriminate].
  unfold flush, the_df, is_fully_populated. run_store.
  rewrite Hopen. run_store. rewrite Hdf. run_store.
  destruct (duplicated_any (table_index t)); run_store; [done|].
  rewrite Hch. run_store. rewrite Hopen. run_store. rewrite Hdf. run_store.
  by rewrite Hfull.
Qed.

Lemma flush_without_table s w :
  is_open s = true -> _df s = None ->
  run flush s w = (Raise AttributeError, (s, w)).
Proof.
  intros Hopen Hdf. unfold flush, the_df. run_store.
  rewrite Hopen. run_store. by rewrite Hdf.
Qed.

Lemma store_file_lookup e p f w : fs (store_file e p f w) !! p = Some f.
Proof. unfold store_file. simpl. apply lookup_insert_eq. Qed.

Lemma store_file_lookup_ne e p q f w :
  p <> q -> fs (store_file e p f w) !! q = fs w !! q.
Proof. intros Hne. unfold store_file. simpl. by apply lookup_insert_ne. Qed.

Lemma store_file_events e p f w :
  events (store_file e p f w) = events w ++ [e].
Proof. done. Qed.

(** ** C4 and C10: extending the table *)

(** C4. [extend_table] succeeds exactly when the store is open, the
    table is not already fully populated, [new_rows] is non-empty and no
    uid key of the new rows repeats another new key or a key already in
    the table; it fails with an (assertion) error otherwise, in
    particular on any duplicate key.  On success the store is marked
    dirty and the table has grown by exactly [len(new_rows)] rows, the
    new rows appended. *)
Theorem extend_table_contract s w new_rows :
  exists r s',
    run (extend_table new_rows) s w = (r, (s', w))
    /\ (r = Ok tt <->
          is_open s = true /\ fully_populated s = false /\ new_rows <> []
          /\ NoDup (table_index (rows_of (_df s)) ++ table_index new_rows))
    /\ (r = Ok tt \/ r = Raise AssertionError)
    /\ ((~ NoDup (table_index new_rows)
          \/ exists u, In u (table_index new_rows)
                       /\ In u (table_index (rows_of (_df s)))) ->
        r = Raise AssertionError)
    /\ (r = Ok tt ->
          is_changed s' = true
          /\ _df s' = Some (rows_of (_df s) ++ new_rows)
          /\ length (rows_of (_df s'))
             = (length (rows_of (_df s)) + length new_rows)%nat).
Proof.
  rewrite extend_table_run.
  assert (Hdup : (~ NoDup (table_index new_rows)
            \/ exists u, In u (table_index new_rows)
                         /\ In u (table_index (rows_of (_df s)))) ->
          duplicated_any (table_index (rows_of (_df s) ++ new_rows)) = true).
  { intros Hd. apply duplicated_any_true. unfold table_index.
    rewrite map_app. intros (Hold & Hdisj & Hnew)%NoDup_app.
    destruct Hd as [Hd|(u & Hu1 & Hu2)]; [done|].
    apply (Hdisj u); by apply list_elem_of_In. }
  destruct new_rows as [|row new_rows]; simpl.
  { exists (Raise AssertionError), s. repeat split; auto; try done.
    by intros (_ & _ & ? & _). }
  destruct (is_open s); simpl.
  2: { exists (Raise AssertionError), s. repeat split; auto; try done.
       by intros (? & _). }
  destruct (fully_populated s); simpl.
  { exists (Raise AssertionError), s. repeat split; auto; try done.
    by intros (_ & ? & _). }
  destruct (duplicated_any _) eqn:Hd.
  - exists (Raise AssertionError), (extended (row :: new_rows) s).
    repeat split; auto; try done.
    intros (_ & _ & _ & Hnd). apply duplicated_any_true in Hd.
    destruct Hd. unfold table_index in *. by rewrite map_app.
  - exists (Ok tt), (extended (row :: new_rows) s).
    split; [done|]. split; [|split; [by left|split]].
    + split; [|done]. intros _. repeat split; auto.
      apply duplicated_any_false in Hd. unfold table_index in *.
      by rewrite map_app in Hd.
    + intros Hdup'. apply Hdup in Hdup'. congruence.
    + intros _. simpl. by rewrite length_app.
Qed.

(** C10. A failure of [extend_table] on a duplicate key is not atomic:
    the duplicate check runs after the new rows were concatenated and
    the dirty flag set, so the error leaves the store marked dirty with
    the duplicate rows in its table. *)
Theorem extend_table_failure_not_atomic s w new_rows :
  is_open s = true -> fully_populated s = false -> new_rows <> [] ->
  ~ NoDup (table_index (rows_of (_df s)) ++ table_index new_rows) ->
  exists s',
    run (extend_table new_rows) s w = (Raise AssertionError, (s', w))
    /\ is_changed s' = true
    /\ _df s' = Some (rows_of (_df s) ++ new_rows)
    /\ ~ NoDup (table_index (rows_of (_df s'))).
Proof.
  intros Hopen Hfull Hne Hdup.
  exists (extended new_rows s). rewrite extend_table_run, Hopen, Hfull.
  destruct new_rows as [|row new_rows]; [done|]. simpl.
  assert (Hd : ~ NoDup (table_index (rows_of (_df s) ++ row :: new_rows)))
    by (unfold table_index in *; by rewrite map_app).
  apply duplicated_any_true in Hd as Hd'. rewrite Hd'. done.
Qed.

Lemma extend_table_failure_not_atomic_witness :
  exists s',
    run (extend_table (rows_with [5; 3]%Z))
        (set_df (Some (rows_with [3]%Z)) scenario_open) empty_world
    = (Raise AssertionError, (s', empty_world))
    /\ is_changed s' = true
    /\ _df s' = Some (rows_with [3; 5; 3]%Z).
Proof.
  destruct (extend_table_failure_not_atomic
              (set_df (Some (rows_with [3]%Z)) scenario_open) empty_world
              (rows_with [5; 3]%Z))
    as (s' & Hrun & Hch & Hdf & _); try done.
  - simpl. compute_done.
  - by exists s'.
Defined.

(** ** C5: uids outside the valid range *)

(** C5, the claim as stated fails: in the scenario (8 rows, valid uids
    0..7) a new row with uid 100 is accepted. *)
Lemma extend_table_accepts_uid_100 :
  fully_populated_rows (uid_calculator scenario_open) = 8%nat
  /\ run (extend_table (rows_with [100]%Z)) scenario_open empty_world
     = (Ok tt, (extended (rows_with [100]%Z) scenario_open, empty_world))
  /\ _df (extended (rows_with [100]%Z) scenario_open)
     = Some [(100%Z, [F32 100])].
Proof. repeat split. Qed.

(** C5, amended. [extend_table] does not check uids against the valid
    range: a new row whose uid lies outside [0, fully_populated_rows) is
    accepted, appended and the store marked dirty, whenever the store is
    open, not fully populated and no uid key is duplicated. *)
Theorem extend_table_no_range_check s w new_rows u row :
  is_open s = true -> fully_populated s = false ->
  NoDup (table_index (rows_of (_df s)) ++ table_index new_rows) ->
  In (u, row) new_rows ->
  ~ (0 <= u < Z.of_nat (fully_populated_rows (uid_calculator s)))%Z ->
  exists s',
    run (extend_table new_rows) s w = (Ok tt, (s', w))
    /\ is_changed s' = true
    /\ In (u, row) (rows_of (_df s')).
Proof.
  intros Hopen Hfull Hnd Hin _.
  exists (extended new_rows s). rewrite extend_table_run, Hopen, Hfull.
  destruct new_rows as [|r0 new_rows]; [done|]. simpl.
  assert (Hd : NoDup (table_index (rows_of (_df s) ++ r0 :: new_rows)))
    by (unfold table_index in *; by rewrite map_app).
  apply duplicated_any_false in Hd. rewrite Hd.
  repeat split. apply in_or_app. by right.
Qed.

Lemma extend_table_no_range_check_witness :
  exists s',
    run (extend_table (rows_with [-1; 8]%Z))
        (set_df (Some (rows_with [3]%Z)) scenario_open) empty_world
    = (Ok tt, (s', empty_world))
    /\ is_changed s' = true
    /\ In (8%Z, [F32 8]) (rows_of (_df s')).
Proof.
  apply (extend_table_no_range_check
           (set_df (Some (rows_with [3]%Z)) scenario_open) empty_world
           (rows_with [-1; 8]%Z) 8%Z [F32 8]); try done.
  - simpl. compute_done.
  - simpl. auto.
  - change (fully_populated_rows _) with 8%nat. lia.
Defined.

(** ** C2 and C7: flushing *)

(** C2, the claim as stated fails: an open, dirty store whose table
    holds all 8 rows of the scenario in ascending uid order is not
    persisted by [flush]; the call raises and no file exists
    afterwards. *)
Lemma flush_full_table_raises :
  fully_populated (set_is_changed true
                     (set_df (Some (rows_with (arange 8))) scenario_open))
    = true
  /\ run flush (set_is_changed true
                  (set_df (Some (rows_with (arange 8))) scenario_open))
               empty_world
     = (Raise AssertionError,
        (set_is_changed true
           (set_df (Some (rows_with (arange 8))) scenario_open),
         empty_world))
  /\ fs empty_world !! "cache/tap_tap.mmap" = None.
Proof. split; [reflexivity|]. split; [|reflexivity]. vm_compute. reflexivity. Qed.

(** C2, amended. When [flush] is called on an open store that is dirty
    and fully populated, it fails with an assertion error (the branch
    starts with [assert False]): nothing is written, at the static cache
    path or elsewhere, and the store stays dirty with its table. *)
Theorem flush_full_table_asserts s w :
  is_open s = true -> is_changed s = true -> fully_populated s = true ->
  exists s' w',
    run flush s w = (Raise AssertionError, (s', w'))
    /\ is_changed s' = true /\ _df s' = _df s
    /\ fs w' = fs w /\ events w' = events w.
Proof.
  intros Hopen Hch Hfull. exists s, w.
  by rewrite (flush_full s w Hopen Hch Hfull).
Qed.

Lemma flush_full_table_asserts_witness :
  exists s' w',
    run flush (set_is_changed true
                 (set_df (Some (rows_with (arange 8))) scenario_open))
        stocked_world
    = (Raise AssertionError, (s', w'))
    /\ is_changed s' = true
    /\ fs w' !! "cache/tap_tap.mmap" = Some (MmapFile (repeat (F32 1) 8)).
Proof.
  destruct (flush_full_table_asserts
              (set_is_changed true
                 (set_df (Some (rows_with (arange 8))) scenario_open))
              stocked_world)
    as (s' & w' & Hrun & Hch & _ & Hfs & _); try reflexivity.
  exists s', w'. rewrite Hfs. by repeat split.
Defined.

(** C7, the claim as stated fails: an open, dirty, partially populated
    store whose table carries a duplicated uid (as a failed
    [extend_table] leaves it) makes [flush] raise, with the rebuild flag
    disabled. *)
Lemma flush_duplicated_table_raises :
  rebuild_tvpb_cache (network_los scenario_open) = false
  /\ fully_populated (set_is_changed true
                        (set_df (Some (rows_with [3; 3]%Z)) scenario_open))
     = false
  /\ run flush (set_is_changed true
                  (set_df (Some (rows_with [3; 3]%Z)) scenario_open))
               empty_world
     = (Raise AssertionError,
        (set_is_changed true
           (set_df (Some (rows_with [3; 3]%Z)) scenario_open),
         empty_world)).
Proof. repeat split. Qed.

(** C7, amended. When [flush] is called on an open store whose table is
    present and free of duplicate uid keys: if the store is not dirty it
    is a no-op (nothing written, no error); if the store is dirty, not
    fully populated and the rebuild-cache flag is disabled, persistence
    is skipped without an error and the dynamic file is left unchanged
    (no feather write happens); if the flag is enabled, the table is
    written to the dynamic (feather) file and the dirty flag is
    cleared. *)
Theorem flush_on_clean_table s w t :
  is_open s = true -> _df s = Some t -> NoDup (table_index t) ->
  (is_changed s = false -> run flush s w = (Ok tt, (s, w)))
  /\ (is_changed s = true -> fully_populated s = false ->
      rebuild_tvpb_cache (network_los s) = false ->
      exists w',
        run flush s w = (Ok tt, (s, w'))
        /\ fs w' !! cache_file s "feather" = fs w !! cache_file s "feather"
        /\ (forall p, In (ToFeather p) (events w') ->
                      In (ToFeather p) (events w)))
  /\ (is_changed s = true -> fully_populated s = false ->
      rebuild_tvpb_cache (network_los s) = true ->
      exists s' w',
        run flush s w = (Ok tt, (s', w'))
        /\ fs w' !! cache_file s "feather" = Some (FeatherFile t)
        /\ In (ToFeather (cache_file s "feather")) (events w')
        /\ is_changed s' = false /\ _df s' = Some t /\ is_open s' = true).
Proof.
  intros Hopen Hdf Hnd.
  assert (Hpaths : cache_file s "csv" <> cache_file s "feather")
    by (intros H%cache_file_inj; discriminate).
  split; [|split].
  - by apply flush_unchanged with t.
  - intros Hch Hfull Hre.
    rewrite (flush_partial s w t Hopen Hdf Hnd Hch Hfull), Hre. simpl.
    eexists. split; [reflexivity|].
    destruct (trace_tvpb_cache_as_csv (network_los s)); [|done].
    split; [by apply store_file_lookup_ne|].
    intros p. rewrite store_file_events, in_app_iff.
    by intros [?|[?|[]]].
  - intros Hch Hfull Hre.
    rewrite (flush_partial s w t Hopen Hdf Hnd Hch Hfull), Hre. simpl.
    do 2 eexists. split; [reflexivity|].
    destruct (trace_tvpb_cache_as_csv (network_los s)).
    + rewrite store_file_lookup_ne, store_file_lookup by done.
      rewrite !store_file_events, !in_app_iff. simpl. tauto.
    + rewrite store_file_lookup, store_file_events, in_app_iff. simpl. tauto.
Qed.

Lemma flush_on_clean_table_witness :
  run flush (set_df (Some (rows_with [3; 5]%Z)) scenario_open) stocked_world
  = (Ok tt, (set_df (Some (rows_with [3; 5]%Z)) scenario_open, stocked_world))
  /\ exists w',
      run flush (set_is_changed true
                   (set_df (Some (rows_with [3; 5]%Z)) scenario_open))
          stocked_world
      = (Ok tt, (set_is_changed true
                   (set_df (Some (rows_with [3; 5]%Z)) scenario_open), w'))
      /\ fs w' !! "cache/tap_tap.feather"
         = Some (FeatherFile [(2%Z, [F32 2])]).
Proof.
  split.
  - apply (flush_on_clean_table
             (set_df (Some (rows_with [3; 5]%Z)) scenario_open) stocked_world
             (rows_with [3; 5]%Z)); try done. simpl. compute_done.
  - destruct (flush_on_clean_table
                (set_is_changed true
                   (set_df (Some (rows_with [3; 5]%Z)) scenario_open))
                stocked_world (rows_with [3; 5]%Z)) as (_ & Hskip & _);
      try done; [simpl; compute_done|].
    destruct Hskip as (w' & Hrun & Hfs & _); try done.
    exists w'. split; [exact Hrun|].
    change (cache_file _ "feather") with "cache/tap_tap.feather" in Hfs.
    rewrite Hfs. reflexivity.
Defined.

(** ** C8: allocating the data buffer *)

Lemma allocate_data_buffer_run s w shared :
  is_open s = false ->
  run (allocate_data_buffer shared) s w =
  (Ok (if shared
       then SharedArray
              (repeat F32_zero (iprod (fully_populated_shape (uid_calculator s))))
       else NumpyArray
              (repeat F32_nan (iprod (fully_populated_shape (uid_calculator s))))),
   (s, w)).
Proof.
  intros Hopen. unfold allocate_data_buffer. run_store. rewrite Hopen.
  run_store. by destruct shared.
Qed.

(** C8 holds for the private buffer but not for the shared one: in the
    scenario the shared buffer has the 8 elements of the fully populated
    shape, all zero, none NaN. *)
Lemma allocate_shared_buffer_zeroed :
  run (allocate_data_buffer false) scenario_store empty_world
  = (Ok (NumpyArray (repeat F32_nan 8)), (scenario_store, empty_world))
  /\ run (allocate_data_buffer true) scenario_store empty_world
     = (Ok (SharedArray (repeat (F32 0) 8)), (scenario_store, empty_world)).
Proof. split; reflexivity. Qed.

(** The shared buffer gets its NaN fill later, from
    [load_data_to_buffer], when no static file exists. *)
Lemma load_data_to_buffer_fills_nan :
  run (load_data_to_buffer (SharedArray (repeat (F32 0) 8)))
      scenario_store empty_world
  = (Ok (SharedArray (repeat F32_nan 8)),
     (scenario_store,
      add_event (IsFile "cache/tap_tap.mmap") empty_world)).
Proof. vm_compute. reflexivity. Qed.

(** ** The closed-store invariant *)

Lemma store_inv_init nl c tag : store_inv (TVPBCache_init nl c tag).
Proof. done. Qed.

Section StoreLogic.
Context {A B : Type}.
Implicit Types P Q I : TVPBCache -> Prop.

Lemma triple_bind P Q' Q (m : M A) (f : A -> M B) :
  triple P m Q' -> (forall s, Q' s -> Q s) ->
  (forall a, triple Q' (f a) Q) -> triple P (m ≫= f) Q.
Proof.
  intros Hm Hq Hf s w r s' w' Hrun HP. unfold mbind, M_bind in Hrun.
  destruct (m (s, w)) as [[a|e] [s1 w1]] eqn:Hm1.
  - eapply Hf; [exact Hrun|]. eapply Hm; eauto.
  - injection Hrun as <- <- <-. apply Hq. eapply Hm; eauto.
Qed.

Lemma triple_inv_bind I (m : M A) (f : A -> M B) :
  triple I m I -> (forall a, triple I (f a) I) -> triple I (m ≫= f) I.
Proof. intros Hm Hf. by apply triple_bind with I. Qed.

Lemma triple_conseq P P' Q Q' (m : M A) :
  triple P' m Q' -> (forall s, P s -> P' s) -> (forall s, Q' s -> Q s) ->
  triple P m Q.
Proof. intros Hm HP HQ s w r s' w' Hrun Hs. eapply HQ, Hm; eauto. Qed.

Lemma triple_ret I (a : A) : triple I (mret a) I.
Proof. intros s w r s' w' [= <- <- <-]. done. Qed.

Lemma triple_raise I e : triple I (raise e : M A) I.
Proof. intros s w r s' w' [= <- <- <-]. done. Qed.

Lemma triple_lift I (x : result A) : triple I (lift x) I.
Proof. intros s w r s' w' [= <- <- <-]. done. Qed.
End StoreLogic.

Lemma triple_self I : triple I self I.
Proof. intros s w r s' w' [= <- <- <-]. done. Qed.

Lemma triple_world I : triple I world I.
Proof. intros s w r s' w' [= <- <- <-]. done. Qed.

Lemma triple_update_world I f : triple I (update_world f) I.
Proof. intros s w r s' w' [= <- <- <-]. done. Qed.

Lemma triple_check I b e : triple I (check b e) I.
Proof. destruct b; [apply triple_ret|apply triple_raise]. Qed.

Lemma triple_update_self (P Q : TVPBCache -> Prop) f :
  (forall s, P s -> Q (f s)) -> triple P (update_self f) Q.
Proof. intros Hf s w r s' w' [= <- <- <-]. by apply Hf. Qed.

Lemma triple_emit I e : triple I (emit e) I.
Proof. apply triple_update_world. Qed.

Lemma triple_assert I b : triple I (assert_ b) I.
Proof. apply triple_check. Qed.

Create HintDb store_logic.
#[export] Hint Resolve triple_ret triple_raise triple_lift triple_self
  triple_world triple_update_world triple_check triple_emit triple_assert
  : store_logic.

(** Methods put together from steps that keep an invariant keep it. *)
Ltac triple_inv :=
  repeat first
    [ solve [auto with store_logic]
    | apply triple_inv_bind; [|intros ?]
    | apply triple_update_self; solve [intros ? ?; simpl; auto]
    | match goal with
      | |- triple _ (if ?b then _ else _) _ => destruct b
      | |- triple _ (match ?x with _ => _ end) _ => destruct x
      end ].

Lemma triple_io I :
  (forall p, triple I (isfile p) I)
  /\ (forall ct, triple I (cache_path ct) I)
  /\ (forall p, triple I (memmap_read p) I)
  /\ (forall p d, triple I (memmap_write p d) I)
  /\ (forall p, triple I (read_feather p) I)
  /\ (forall p t, triple I (to_feather p t) I)
  /\ (forall p t, triple I (to_csv p t) I)
  /\ (forall p, triple I (unlink p) I)
  /\ triple I get_data_and_lock_from_buffers I.
Proof.
  repeat split; intros;
    unfold isfile, cache_path, memmap_read, memmap_write, read_feather,
      to_feather, to_csv, unlink, get_data_and_lock_from_buffers;
    triple_inv.
Qed.

Lemma open_static_keeps_open data :
  triple (fun s => is_open s = true) (open_static data)
         (fun s => is_open s = true).
Proof. unfold open_static. triple_inv. Qed.

Lemma open_keeps_inv for_rebuild : triple store_inv (open for_rebuild) store_inv.
Proof.
  unfold open. apply triple_inv_bind; [apply triple_self|intros s].
  apply triple_inv_bind; [apply triple_check|intros _].
  apply triple_bind with (fun s => is_open s = true).
  - by apply triple_update_self.
  - intros s' Hopen. unfold store_inv. congruence.
  - intros _. apply triple_conseq
      with (fun s => is_open s = true) (fun s => is_open s = true);
      [|done|intros s' Hopen; unfold store_inv; congruence].
    pose proof (triple_io (fun s => is_open s = true))
      as (Hisfile & Hpath & Hread & _ & Hfeather & _ & _ & _ & Hbuf).
    pose proof open_static_keeps_open.
    triple_inv.
Qed.

Lemma flush_keeps_inv : triple store_inv flush store_inv.
Proof.
  pose proof (triple_io store_inv)
    as (_ & Hpath & _ & Hwrite & _ & Hfeather & Hcsv & _ & _).
  unfold flush, the_df, is_fully_populated.
  repeat first
    [ solve [auto with store_logic]
    | apply triple_inv_bind; [|intros ?]
    | apply triple_update_self; solve [intros ? ?; done]
    | match goal with
      | |- triple _ (if ?b then _ else _) _ => destruct b
      | |- triple _ (match ?x with _ => _ end) _ => destruct x
      end ].
Qed.

Lemma close_run s w :
  run close s w =
  if is_open s then
    match run flush s w with
    | (Ok _, (s1, w1)) => (Ok tt, (set_df None (set_is_open false s1), w1))
    | (Raise e, st) => (Raise e, st)
    end
  else (Raise AssertionError, (s, w)).
Proof.
  unfold close. run_store. destruct (is_open s); run_store; [|done].
  by destruct (flush (s, w)) as [[[]|e] [s1 w1]].
Qed.

Lemma close_keeps_inv : triple store_inv close store_inv.
Proof.
  intros s w r s' w' Hrun Hinv. change (close (s, w)) with (run close s w) in Hrun.
  rewrite close_run in Hrun. destruct (is_open s); [|by simplify_eq].
  destruct (run flush s w) as [[[]|e] [s1 w1]] eqn:Hflush.
  - by simplify_eq.
  - simplify_eq. by eapply flush_keeps_inv.
Qed.

Lemma extend_table_keeps_inv new_rows :
  triple store_inv (extend_table new_rows) store_inv.
Proof.
  intros s w r s' w' Hrun Hinv.
  change (extend_table new_rows (s, w))
    with (run (extend_table new_rows) s w) in Hrun.
  rewrite extend_table_run in Hrun.
  destruct (0 <? length new_rows)%nat; simpl in Hrun; [|by simplify_eq].
  destruct (is_open s) eqn:Hopen; simpl in Hrun; [|by simplify_eq].
  destruct (fully_populated s); simpl in Hrun; simplify_eq; [done|].
  unfold store_inv, extended. simpl. congruence.
Qed.

Lemma readers_keep I :
  triple I cleanup I
  /\ (forall data, triple I (write_static_cache data) I)
  /\ triple I table I
  /\ (forall shared, triple I (allocate_data_buffer shared) I)
  /\ (forall data_buffer, triple I (load_data_to_buffer data_buffer) I).
Proof.
  pose proof (triple_io I)
    as (Hisfile & Hpath & Hread & Hwrite & _ & _ & _ & Hunlink & _).
  repeat split; intros;
    unfold cleanup, cleanup_one, write_static_cache, table,
      allocate_data_buffer, load_data_to_buffer;
    triple_inv.
Qed.

(** A store created closed and then driven by any calls holds no table
    whenever it is closed. *)
Lemma calls_keep_inv ms : forall s w,
  store_inv s -> store_inv (fst (calls ms s w)).
Proof.
  induction ms as [|m ms IH]; intros s w Hinv; [done|]. simpl.
  destruct (run (call m) s w) as [r [s' w']] eqn:Hrun. apply IH.
  pose proof (readers_keep store_inv) as (Hc & Hw & Ht & Ha & Hl).
  assert (Hm : triple store_inv (call m) store_inv).
  { destruct m; simpl;
      [ exact Hc | apply Hw | apply open_keeps_inv
      | apply extend_table_keeps_inv | apply flush_keeps_inv
      | apply close_keeps_inv | .. ];
      (apply triple_inv_bind; [auto|intros ?; apply triple_ret]). }
  by eapply Hm.
Qed.

(** A store created by the constructor and driven by any calls holds no
    table whenever it is closed. *)
Theorem closed_store_has_no_table nl c tag w0 ms :
  is_open (fst (calls ms (TVPBCache_init nl c tag) w0)) = false ->
  _df (fst (calls ms (TVPBCache_init nl c tag) w0)) = None.
Proof.
  apply (calls_keep_inv ms (TVPBCache_init nl c tag) w0).
  apply store_inv_init.
Qed.

Lemma closed_store_has_no_table_witness :
  _df (fst (calls [CallOpen false; CallExtendTable (rows_with [3]%Z); CallClose]
                  scenario_store empty_world)) = None.
Proof.
  apply (closed_store_has_no_table (scenario_los ["set1"])
           (scenario_calculator ["set1"]) "tap_tap" empty_world).
  vm_compute. reflexivity.
Defined.

(** ** C6: opening for a rebuild *)

Lemma open_for_rebuild_run s w :
  is_open s = false ->
  run (open true) s w = (Ok tt, (set_is_open true s, w)).
Proof. intros Hopen. unfold open. run_store. by rewrite Hopen. Qed.

(** C6. Opening a store in rebuild mode loads nothing.  Take a store
    created by the constructor and driven by any calls, in any world;
    when it is closed, [open(for_rebuild=True)] succeeds without probing
    or reading the shared buffers or the static or dynamic file,
    whether or not they exist (the world, its trace of I/O events
    included, is the same afterwards), and leaves the store open with
    no in-memory table. *)
Theorem open_for_rebuild_loads_nothing nl c tag w0 ms s w :
  calls ms (TVPBCache_init nl c tag) w0 = (s, w) ->
  is_open s = false ->
  exists s',
    run (open true) s w = (Ok tt, (s', w))
    /\ is_open s' = true /\ _df s' = None
    /\ is_changed s' = is_changed s.
Proof.
  intros Hcalls Hopen.
  pose proof (calls_keep_inv ms (TVPBCache_init nl c tag) w0
                (store_inv_init nl c tag)) as Hinv.
  rewrite Hcalls in Hinv. simpl in Hinv.
  exists (set_is_open true s). rewrite open_for_rebuild_run by done.
  repeat split. by apply Hinv.
Qed.

Lemma open_for_rebuild_loads_nothing_witness :
  events (snd (calls [CallOpen false; CallClose] scenario_store stocked_world))
  = [IsFile "cache/tap_tap.mmap"; MemmapRead "cache/tap_tap.mmap"]
  /\ exists s',
      run (open true)
          (fst (calls [CallOpen false; CallClose] scenario_store stocked_world))
          (snd (calls [CallOpen false; CallClose] scenario_store stocked_world))
      = (Ok tt,
         (s', snd (calls [CallOpen false; CallClose] scenario_store
                         stocked_world)))
      /\ is_open s' = true /\ _df s' = None.
Proof.
  split; [vm_compute; reflexivity|].
  destruct (open_for_rebuild_loads_nothing
              (scenario_los ["set1"]) (scenario_calculator ["set1"]) "tap_tap"
              stocked_world [CallOpen false; CallClose]
              (fst (calls [CallOpen false; CallClose] scenario_store
                          stocked_world))
              (snd (calls [CallOpen false; CallClose] scenario_store
                          stocked_world)))
    as (s' & Hrun & Hopen & Hdf & _).
  - by destruct (calls _ _ _).
  - vm_compute. reflexivity.
  - by exists s'.
Defined.

(** In normal mode the same store does read the static file. *)
Example open_normal_reads_static :
  exists s' w',
    run (open false) scenario_store stocked_world = (Ok tt, (s', w'))
    /\ events w' = [IsFile "cache/tap_tap.mmap";
                    MemmapRead "cache/tap_tap.mmap"]
    /\ _df s' = Some (zip (arange 8) (repeat [F32 1] 8)).
Proof. do 2 eexists. split; [vm_compute; reflexivity|]. by split. Qed.

(** ** Round trips through the cache files *)

Lemma chunks_exact {X : Type} (c : nat) : forall r (data : list X) fuel,
  (0 < c)%nat -> length data = (r * c)%nat -> (r <= fuel)%nat ->
  length (chunks fuel c data) = r /\ concat (chunks fuel c data) = data.
Proof.
  induction r as [|r IH]; intros data fuel Hc Hlen Hfuel.
  - destruct data; [|done]. by destruct fuel.
  - destruct fuel as [|fuel]; [lia|].
    destruct data as [|x data]; [simpl in Hlen; lia|].
    cbn [chunks].
    destruct (IH (drop c (x :: data)) fuel) as [Hl Hcat]; [done| |lia|].
    + rewrite length_drop, Hlen. simpl. lia.
    + cbn [length concat]. rewrite Hl, Hcat. by rewrite take_drop.
Qed.




(** Closing a dirty, partially populated store with the rebuild flag set
    writes the dynamic file; opening the store again (single process, no
    static file) loads the same table back. *)
Theorem dynamic_cache_roundtrip s w t :
  is_open s = true -> _df s = Some t -> NoDup (table_index t) ->
  is_changed s = true -> fully_populated s = false ->
  rebuild_tvpb_cache (network_los s) = true ->
  multiprocess (network_los s) = false ->
  fs w !! cache_file s "mmap" = None ->
  exists s1 w1 s2 w2,
    run close s w = (Ok tt, (s1, w1))
    /\ is_open s1 = false /\ _df s1 = None
    /\ run (open false) s1 w1 = (Ok tt, (s2, w2))
    /\ is_open s2 = true /\ _df s2 = Some t.
Proof.
  intros Hopen Hdf Hnd Hch Hfull Hre Hmp Hstatic.
  assert (Hfm : cache_file s "feather" <> cache_file s "mmap")
    by (intros H%cache_file_inj; discriminate).
  assert (Hcm : cache_file s "csv" <> cache_file s "mmap")
    by (intros H%cache_file_inj; discriminate).
  assert (Hcf : cache_file s "csv" <> cache_file s "feather")
    by (intros H%cache_file_inj; discriminate).
  rewrite close_run, Hopen, (flush_partial s w t) by done.
  rewrite Hre. cbn zeta.
  set (w0 := store_file (ToFeather (cache_file s "feather"))
               (cache_file s "feather") (FeatherFile t) w).
  set (w1 := if trace_tvpb_cache_as_csv (network_los s)
             then store_file (ToCsv (cache_file s "csv"))
                    (cache_file s "csv") (CsvFile t) w0
             else w0).
  set (s1 := set_df None (set_is_open false (set_is_changed false s))).
  assert (Hm : fs w1 !! cache_file s "mmap" = None).
  { unfold w1, w0. destruct (trace_tvpb_cache_as_csv (network_los s));
      [rewrite store_file_lookup_ne by done|];
      by rewrite store_file_lookup_ne. }
  assert (Hf : fs w1 !! cache_file s "feather" = Some (FeatherFile t)).
  { unfold w1, w0. destruct (trace_tvpb_cache_as_csv (network_los s));
      [rewrite store_file_lookup_ne by done|]; apply store_file_lookup. }
  exists s1, w1, (set_df (Some t) (set_is_open true s1)),
    (add_event (ReadFeather (cache_file s "feather"))
       (add_event (IsFile (cache_file s "feather"))
          (add_event (IsFile (cache_file s "mmap")) w1))).
  split; [done|]. split; [done|]. split; [done|].
  split; [|by split].
  apply duplicated_any_false in Hnd.
  unfold open, cache_path, isfile, read_feather. run_store.
  rewrite Hmp. run_store.
  change (cache_file (set_is_open true s1)) with (cache_file s).
  rewrite Hm. run_store.
  change (cache_file (set_is_open true s1)) with (cache_file s).
  rewrite Hf. run_store.
  change (cache_file (set_is_open true s1)) with (cache_file s).
  rewrite Hf. run_store. by rewrite Hnd.
Qed.

Lemma dynamic_cache_roundtrip_witness :
  exists s1 w1 s2 w2,
    run close
        (set_is_changed true
           (set_df (Some (rows_with [3; 5]%Z))
              (set_is_open true
                 (TVPBCache_init
                    {| tap_df := Some [VInt 10; VInt 20];
                       attribute_segments := [("tod", [VStr "AM"; VStr "MD"])];
                       spec_columns := ["set1"];
                       multiprocess := false;
                       rebuild_tvpb_cache := true;
                       trace_tvpb_cache_as_csv := true;
                       cache_dir := "cache" |}
                    (scenario_calculator ["set1"]) "tap_tap"))))
        empty_world
    = (Ok tt, (s1, w1))
    /\ is_open s1 = false /\ _df s1 = None
    /\ run (open false) s1 w1 = (Ok tt, (s2, w2))
    /\ is_open s2 = true /\ _df s2 = Some (rows_with [3; 5]%Z).
Proof.
  apply dynamic_cache_roundtrip; try reflexivity.
  simpl. compute_done.
Defined.

(** * Further properties of the calculator *)

(** ** The uid loop, row by row *)










(** ** Attributes that cannot be resolved *)

Lemma foldM_uid_missing df scal name items : forall acc,
  In name (map fst items) ->
  dict_get name (df_columns df) = None -> dict_get name scal = None ->
  exists e, foldM (uid_step df scal) items acc = Raise e.
Proof.
  induction items as [|[n o] items IH]; intros acc Hin Hc Hs; [done|].
  cbn [foldM].
  destruct (uid_step df scal acc (n, o)) as [acc'|e] eqn:Hstep;
    [|by eexists].
  cbn [mbind result_bind]. destruct Hin as [Hn|Hin]; [|by apply IH].
  simpl in Hn. subst n. unfold uid_step in Hstep. by rewrite Hc, Hs in Hstep.
Qed.

(** [get_unique_ids] needs every attribute of the calculator: when one
    of them is neither a column of the frame nor a scalar attribute, the
    call raises, whatever the other attributes are. *)
Theorem get_unique_ids_needs_every_attribute c df scal name :
  In name (dict_keys (ordinalizers c)) ->
  dict_get name (df_columns df) = None ->
  dict_get name scal = None ->
  exists e, get_unique_ids c df scal = Raise e.
Proof. intros Hin Hc Hs. by apply foldM_uid_missing with name. Qed.

Lemma get_unique_ids_needs_every_attribute_witness :
  exists e,
    get_unique_ids (scenario_calculator []) (od_row (VInt 10) (VInt 20)) []
    = Raise e.
Proof.
  apply (get_unique_ids_needs_every_attribute (scenario_calculator [])
           (od_row (VInt 10) (VInt 20)) [] "tod"); [|reflexivity..].
  simpl. by left.
Defined.





(** ** Values the ordinalizers do not know *)

Lemma Forall2_with_Forall {X Y : Type} (P : X -> Prop) (Q : X -> Y -> Prop) l k :
  Forall P l -> Forall2 Q l k -> Forall2 (fun x y => P x /\ Q x y) l k.
Proof.
  intros HP HQ. induction HQ; [constructor|].
  apply Forall_cons in HP as [? ?]. constructor; auto.
Qed.

Lemma cardinality_nonempty (o : Series) v :
  In v o -> exists n, cell_add (Series_max o) (Int 1) = Int n.
Proof. destruct o; [done|]. intros _. by eexists. Qed.

Lemma Series_at_known (o : Series) v :
  NoDup o -> In v o -> exists k, Series_at o v = Ok k.
Proof.
  intros Hnd [k Hk]%list_elem_of_In%list_elem_of_lookup_1.
  unfold Series_at. rewrite (positions_nth o k v 0 Hnd Hk). by eexists.
Qed.

Lemma Series_at_unknown (o : Series) v :
  ~ In v o -> Series_at o v = Raise KeyError.
Proof. intros Hn. unfold Series_at. by rewrite positions_notin. Qed.

Lemma radix_step_Int card u k :
  is_Int card -> is_Int u -> is_Int (radix_step card u (Int k)).
Proof. by destruct card, u. Qed.

(** The loop of [get_unique_ids] over attributes given as scalars. *)
Lemma uid_fold_scalars df scal (segs : list (string * Series)) t :
  Forall2 (fun item v =>
    (dict_get (fst item) (df_columns df) = None /\ NoDup (snd item))
    /\ dict_get (fst item) scal = Some v) segs t ->
  forall acc,
  (Forall2 (fun item v => In v (snd item)) segs t ->
     exists acc', foldM (uid_step df scal) segs acc = Ok acc'
       /\ length acc' = length acc
       /\ (Forall is_Int acc -> Forall is_Int acc'))
  /\ (~ Forall2 (fun item v => In v (snd item)) segs t ->
     foldM (uid_step df scal) segs acc = Raise KeyError).
Proof.
  induction 1 as [|[n o] v segs t [[Hcol Hnd] Hscal] _ IH]; intros acc.
  - split; [intros _; by exists acc|]. intros Hn. destruct Hn. constructor.
  - simpl in *. rewrite Hcol, Hscal.
    destruct (in_dec value_eq_dec v o) as [Hin|Hnin].
    + destruct (Series_at_known o v Hnd Hin) as [k ->].
      destruct (cardinality_nonempty o v Hin) as [card ->]. simpl.
      set (acc1 := map _ acc).
      destruct (IH acc1) as [IHok IHbad]. split.
      * intros Hall. inversion Hall; subst.
        destruct IHok as (acc' & Hrun & Hlen & Hint); [done|].
        exists acc'. split; [done|]. split.
        { rewrite Hlen. unfold acc1. by rewrite length_map. }
        intros Hacc. apply Hint. unfold acc1.
        apply List.Forall_map. eapply List.Forall_impl; [|exact Hacc].
        intros u Hu. by apply radix_step_Int.
      * intros Hn. apply IHbad. intros Hall. apply Hn. by constructor.
    + rewrite Series_at_unknown by done. simpl. split; [|done].
      intros Hall. by inversion Hall.
Qed.

(** The loop of [get_skim_offset] over attributes given as scalars. *)
Lemma offset_fold_scalars scal (segs : list (string * Series)) t :
  Forall2 (fun item v =>
    NoDup (snd item) /\ dict_get (fst item) scal = Some v) segs t ->
  forall acc,
  ~ Forall2 (fun item v => In v (snd item)) segs t ->
  foldM (offset_step scal) segs acc = Raise KeyError.
Proof.
  induction 1 as [|[n o] v segs t [Hnd Hscal] _ IH]; intros acc Hn.
  - destruct Hn. constructor.
  - simpl in *. rewrite Hscal.
    destruct (in_dec value_eq_dec v o) as [Hin|Hnin].
    + destruct (Series_at_known o v Hnd Hin) as [k ->]. simpl.
      apply IH. intros Hall. apply Hn. by constructor.
    + by rewrite Series_at_unknown.
Qed.

(** How the segment attributes resolve when the frame has only the two
    tap columns and the scalar attributes pair the names with a tuple. *)
Lemma segments_resolve nl (cols : odict (list value)) (t : list value) :
  well_formed nl ->
  length t = length (attribute_segments nl) ->
  (forall n, n <> "btap" -> n <> "atap" -> dict_get n cols = None) ->
  Forall2 (fun item v =>
    (dict_get (fst item) cols = None /\ NoDup (snd item))
    /\ dict_get (fst item) (combine (map fst (attribute_segments nl)) t)
       = Some v) (attribute_segments nl) t.
Proof.
  intros [_ Hnames Hb Ha Hvals _] Hlen Hcols.
  apply Forall2_with_Forall.
  - apply List.Forall_forall. intros [n o] Hin. simpl. split.
    + apply Hcols; intros ->; [apply Hb|apply Ha];
        apply in_map_iff; eexists; (split; [|exact Hin]); done.
    + apply (proj1 (List.Forall_forall _ _) Hvals).
      apply in_map_iff. by exists (n, o).
  - apply (Forall2_map_left
             (fun n v => dict_get n (combine (map fst (attribute_segments nl)) t)
                         = Some v) fst).
    apply dict_get_combine; [done|]. by rewrite length_map.
Qed.

Lemma tap_columns_only (cb ca : list value) n :
  n <> "btap" -> n <> "atap" ->
  dict_get n [("btap", cb); ("atap", ca)] = None.
Proof.
  intros Hb%String.eqb_neq Ha%String.eqb_neq. simpl. by rewrite Hb, Ha.
Qed.

Lemma scalar_attributes_combine nl c t :
  well_formed nl -> TapTapUidCalculator_init nl = Ok c ->
  length t = length (attribute_segments nl) ->
  scalar_attributes_of c t = combine (map fst (attribute_segments nl)) t.
Proof.
  intros Hwf Hinit Hlen.
  destruct (init_well_formed nl Hwf) as (taps & Htaps & Hnd & Hc).
  rewrite Hc in Hinit. injection Hinit as <-.
  unfold scalar_attributes_of, dict_keys. simpl.
  apply dict_of_pairs_nodup. rewrite map_fst_combine; [apply Hwf|].
  by rewrite length_map.
Qed.

(** A segment tuple with a value its attribute does not list is a
    [KeyError]: given as scalar attributes, it makes [get_unique_ids]
    (here on a key's one-row frame), [get_od_dataframe] and
    [get_skim_offset] raise it, whatever the taps are. *)
Theorem unknown_segment_value_raises nl c t b a :
  well_formed nl -> TapTapUidCalculator_init nl = Ok c ->
  length t = length (segmentation c) ->
  ~ In t (attribute_combination_tuples c) ->
  compute_uid c (t, b, a) = Raise KeyError
  /\ get_od_dataframe c (scalar_attributes_of c t) = Raise KeyError
  /\ get_skim_offset c (scalar_attributes_of c t) = Raise KeyError.
Proof.
  intros Hwf Hinit Hlen Hnot.
  pose proof (scalar_attributes_combine nl c t Hwf Hinit) as Hscal.
  destruct (init_well_formed nl Hwf) as (taps & Htaps & Hnd & Hc).
  rewrite Hc in Hinit. injection Hinit as <-. simpl in *.
  rewrite Hscal by done. clear Hscal.
  assert (Hbad : ~ Forall2 (fun item v => In v (snd item))
                          (attribute_segments nl) t).
  { intros Hall. apply Hnot, product_In_iff. by apply Forall2_map_left. }
  split; [|split].
  - unfold get_unique_ids. simpl. rewrite foldM_app.
    destruct (uid_fold_scalars (od_row b a)
                (combine (map fst (attribute_segments nl)) t)
                (attribute_segments nl) t) with (acc := [Int 0])
      as [_ ->]; [|done..].
    apply segments_resolve; [done..|]. apply tap_columns_only.
  - unfold get_od_dataframe, get_unique_ids. simpl. rewrite foldM_app.
    match goal with
    | |- context [foldM (uid_step ?df ?scal) _ ?acc0] =>
        assert (Hres : Forall2 (fun item v =>
                  (dict_get (fst item) (df_columns df) = None
                   /\ NoDup (snd item))
                  /\ dict_get (fst item) scal = Some v)
                  (attribute_segments nl) t)
          by (apply segments_resolve; [done..|]; apply tap_columns_only);
        destruct (uid_fold_scalars df scal (attribute_segments nl) t
                    Hres acc0) as [_ ->]; [done..|]
    end. done.
  - unfold get_skim_offset. simpl. rewrite foldM_app.
    rewrite offset_fold_scalars with (t := t); [done| |done].
    eapply Forall2_impl;
      [apply (segments_resolve nl [] t Hwf Hlen); by intros|].
    intros [n o] v [[_ ?] ?]. by split.
Qed.

Lemma unknown_segment_value_raises_witness :
  compute_uid (scenario_calculator []) ([VStr "PM"], VInt 10, VInt 20)
  = Raise KeyError.
Proof.
  apply (unknown_segment_value_raises (scenario_los [])
           (scenario_calculator []) [VStr "PM"] (VInt 10) (VInt 20)).
  - apply scenario_well_formed.
  - reflexivity.
  - reflexivity.
  - simpl. intros [H|[H|[]]]; discriminate.
Defined.

Lemma radix_step_NaN_r card u : radix_step card u NaN = NaN.
Proof. unfold radix_step. by destruct (cell_mul u card). Qed.

Lemma radix_step_NaN_l card x : radix_step card NaN x = NaN.
Proof. done. Qed.

Lemma Series_map_one (o : Series) v :
  NoDup o ->
  Series_map [v] o
  = Ok [match positions v o 0 with i :: _ => Int i | [] => NaN end].
Proof.
  intros Hnd. unfold Series_map, is_unique.
  by rewrite bool_decide_eq_true_2.
Qed.

(** A tap the calculator does not know is not an error for
    [get_unique_ids]: for a valid segment tuple and an origin or a
    destination tap outside the tap ids, the uid of the row is NaN. *)
Theorem unknown_tap_gives_nan nl c t b a :
  well_formed nl -> TapTapUidCalculator_init nl = Ok c ->
  In t (attribute_combination_tuples c) ->
  ~ In b (tap_ids c) \/ ~ In a (tap_ids c) ->
  compute_uid c (t, b, a) = Ok [NaN].
Proof.
  intros Hwf Hinit Ht Htap.
  assert (Hlen : length t = length (attribute_segments nl)).
  { rewrite (init_combination_tuples nl c Hinit) in Ht.
    apply product_In, Forall2_length in Ht.
    destruct (init_well_formed nl Hwf) as (taps & _ & _ & Hc).
    rewrite Hc in Hinit. injection Hinit as <-.
    unfold dict_values in Ht. simpl in Ht. by rewrite length_map in Ht. }
  pose proof (scalar_attributes_combine nl c t Hwf Hinit Hlen) as Hscal.
  destruct (init_well_formed nl Hwf) as (taps & Htaps & Hnd & Hc).
  rewrite Hc in Hinit. injection Hinit as <-. simpl in *.
  rewrite Hscal. clear Hscal.
  unfold get_unique_ids. simpl. rewrite foldM_app.
  destruct (uid_fold_scalars (od_row b a)
              (combine (map fst (attribute_segments nl)) t)
              (attribute_segments nl) t) with (acc := [Int 0])
    as [Hok _].
  { apply segments_resolve; [done..|]. apply tap_columns_only. }
  destruct Hok as (acc' & -> & Hl & Hint).
  { apply (Forall2_map_left (fun (o : Series) v => In v o) snd).
    by apply product_In. }
  destruct acc' as [|u [|? ?]]; try discriminate. simpl.
  rewrite !(Series_map_one taps) by done. simpl.
  destruct Htap as [Hb|Ha].
  - rewrite (positions_notin b taps) by done.
    by rewrite radix_step_NaN_r, radix_step_NaN_l.
  - rewrite (positions_notin a taps) by done.
    by rewrite radix_step_NaN_r.
Qed.

Lemma unknown_tap_gives_nan_witness :
  compute_uid (scenario_calculator []) ([VStr "AM"], VInt 10, VInt 30)
  = Ok [NaN].
Proof.
  apply (unknown_tap_gives_nan (scenario_los []) (scenario_calculator [])).
  - apply scenario_well_formed.
  - reflexivity.
  - simpl. by left.
  - right. simpl. intros [H|[H|[]]]; discriminate.
Defined.

(** ** Uids, skim offsets and the skim shape *)

Lemma radix_app (l1 : list Series) : forall t1 l2 t2 acc,
  length l1 = length t1 ->
  radix (l1 ++ l2) (t1 ++ t2) acc
  = match radix l1 t1 acc with
    | Some r => radix l2 t2 r
    | None => None
    end.
Proof.
  induction l1 as [|o l1 IH]; intros [|v t1] l2 t2 acc Hlen;
    try discriminate.
  - simpl. by destruct l2, t2.
  - simpl. destruct (index_of v o); [|done]. apply IH. simpl in Hlen. lia.
Qed.

(** The uid of a key is its skim offset times the number of
    origin/destination rows, plus the row-major position of its tap
    pair: reshaped to [skim_shape], the fully populated table has the
    key's row at [offset, od]. *)
Theorem uid_splits_by_skim_shape nl c t b a :
  well_formed nl -> TapTapUidCalculator_init nl = Ok c ->
  (Z.of_nat (fully_populated_rows c) < 2 ^ 63)%Z ->
  In (t, b, a) (keys c) ->
  exists offset od : Z,
    get_skim_offset c (scalar_attributes_of c t) = Ok (Int offset)
    /\ od = (ordinal b (tap_ids c) * Z.of_nat (length (tap_ids c))
             + ordinal a (tap_ids c))%Z
    /\ compute_uid c (t, b, a)
       = Ok [Int (offset * Z.of_nat (snd (fst (skim_shape c))) + od)]
    /\ (0 <= offset < Z.of_nat (fst (fst (skim_shape c))))%Z
    /\ (0 <= od < Z.of_nat (snd (fst (skim_shape c))))%Z.
Proof.
  intros Hwf Hinit Hrows Hk.
  destruct (compute_uid_radix nl c (t, b, a) Hwf Hinit Hrows Hk)
    as (r & Hr & Huid).
  pose proof (proj1 (In_keys nl c Hwf Hinit t b a) Hk) as (Hsegs & Hb & Ha).
  assert (Ht : In t (attribute_combination_tuples c)).
  { unfold keys in Hk. apply in_flat_map in Hk as (t' & Ht' & Hk).
    apply in_flat_map in Hk as (b' & _ & Hk).
    by apply in_map_iff in Hk as (a' & [= -> _ _] & _). }
  pose proof Ht as [k Hpos]%list_elem_of_In%list_elem_of_lookup_1.
  pose proof (combination_rank nl c k t Hwf Hinit Hpos) as Hrank.
  pose proof (lookup_lt_Some _ _ _ Hpos) as Hklt.
  assert (Hn : (0 < length (tap_ids c))%nat).
  { destruct (tap_ids c); [done|simpl; lia]. }
  assert (Hcombos : (Z.of_nat (length (attribute_combination_tuples c))
                     < 2 ^ 63)%Z).
  { unfold fully_populated_rows in Hrows. nia. }
  destruct (skim_offset_radix nl c t Hwf Hinit Hcombos Ht)
    as (r' & Hr' & Hoff).
  rewrite Hrank in Hr'. injection Hr' as <-.
  destruct (init_well_formed nl Hwf) as (taps & Htaps & Hnd & Hc).
  rewrite Hc in Hinit. injection Hinit as <-.
  unfold dict_values, skim_shape in *. simpl in *.
  rewrite map_app, radix_app, Hrank in Hr.
  2:{ apply Forall2_length in Hsegs. by rewrite length_map. }
  simpl in Hr.
  destruct (ordinal_range taps b Hnd Hb) as [Hib Hrb].
  destruct (ordinal_range taps a Hnd Ha) as [Hia Hra].
  rewrite Hib, Hia in Hr. injection Hr as <-.
  exists (Z.of_nat k), (ordinal b taps * Z.of_nat (length taps)
                        + ordinal a taps)%Z.
  split; [done|]. split; [done|]. split.
  { rewrite Huid. do 3 f_equal. lia. }
  split; [lia|nia].
Qed.

Lemma uid_splits_by_skim_shape_witness :
  exists offset od : Z,
    get_skim_offset (scenario_calculator ["set1"]) [("tod", VStr "MD")]
    = Ok (Int offset)
    /\ compute_uid (scenario_calculator ["set1"])
         ([VStr "MD"], VInt 20, VInt 10)
       = Ok [Int (offset * 4 + od)]
    /\ (0 <= offset < 2)%Z /\ (0 <= od < 4)%Z.
Proof.
  destruct (uid_splits_by_skim_shape (scenario_los ["set1"])
              (scenario_calculator ["set1"]) [VStr "MD"] (VInt 20) (VInt 10))
    as (offset & od & Hoff & _ & Huid & Ho & Hod).
  - apply scenario_well_formed.
  - reflexivity.
  - reflexivity.
  - simpl. tauto.
  - by exists offset, od.
Defined.

Lemma flat_map_length_const {X Y : Type} (f : X -> list Y) (l : list X) m :
  (forall x, length (f x) = m) -> length (flat_map f l) = (length l * m)%nat.
Proof.
  intros Hf. induction l as [|x l IH]; [done|]. simpl.
  by rewrite length_app, Hf, IH.
Qed.

Lemma num_tuples_zero (ords : list Series) :
  num_tuples ords = 0%nat <-> In [] ords.
Proof.
  induction ords as [|o ords IH]; simpl; [split; [lia|tauto]|].
  rewrite Nat.eq_mul_0, IH. split.
  - intros [Ho|?]; [left|by right]. by destruct o.
  - intros [->|?]; [by left|by right].
Qed.

(** The shapes count the key space: the rows of the fully populated
    table are the keys, their number is the product of the numbers of
    values of the segment attributes times the square of the number of
    taps, and [skim_shape] factors it into combinations and
    origin/destination rows.  The table has no row exactly when there is
    no tap or some attribute has no value. *)
Theorem shapes_count_the_key_space nl c :
  well_formed nl -> TapTapUidCalculator_init nl = Ok c ->
  fully_populated_shape c = (length (keys c), length (spec_columns nl))
  /\ skim_shape c
     = (num_tuples (map snd (attribute_segments nl)),
        (length (tap_ids c) * length (tap_ids c))%nat,
        length (spec_columns nl))
  /\ fst (fully_populated_shape c)
     = (fst (fst (skim_shape c)) * snd (fst (skim_shape c)))%nat
  /\ (fst (fully_populated_shape c) = 0%nat
      <-> tap_ids c = [] \/ In [] (map snd (attribute_segments nl))).
Proof.
  intros Hwf Hinit.
  destruct (init_well_formed nl Hwf) as (taps & Htaps & Hnd & Hc).
  rewrite Hc in Hinit. injection Hinit as <-.
  unfold fully_populated_shape, fully_populated_rows, skim_shape, keys.
  simpl. rewrite product_length.
  split; [|split; [done|split; [lia|]]].
  - f_equal.
    rewrite (flat_map_length_const _ _ (length taps * length taps)).
    + rewrite product_length. lia.
    + intros t. rewrite (flat_map_length_const _ _ (length taps)); [done|].
      intros b. by rewrite length_map.
  - rewrite <- num_tuples_zero. destruct taps as [|x taps]; simpl.
    + split; [by left|lia].
    + split; [right; nia|]. intros [?|Hz]; [done|]. rewrite Hz. lia.
Qed.

Lemma shapes_count_the_key_space_witness :
  fully_populated_shape (scenario_calculator ["set1"])
  = (length (keys (scenario_calculator ["set1"])), 1%nat).
Proof.
  apply (shapes_count_the_key_space (scenario_los ["set1"])
           (scenario_calculator ["set1"])).
  - apply scenario_well_formed.
  - reflexivity.
Defined.

(** ** The frame of scalar attribute combinations *)

Lemma max_width_uniform {X : Type} (x : list (list X)) w :
  x <> [] -> Forall (fun row => length row = w) x ->
  fold_right Nat.max 0%nat (map length x) = w.
Proof.
  intros Hne Hall. induction Hall as [|row x Hrow Hall IH]; [done|].
  simpl. destruct x as [|row' x]; [simpl; lia|].
  rewrite IH by done. lia.
Qed.

Lemma pd_DataFrame_uniform (x : list (list value)) columns :
  Forall (fun row => length row = length columns) x ->
  pd_DataFrame x columns
  = Ok {| vf_index := arange (length x); vf_index_name := None;
          vf_columns := columns; vf_rows := map (map Some) x |}.
Proof.
  intros Hall. destruct x as [|row x]; [done|]. unfold pd_DataFrame.
  rewrite (max_width_uniform (row :: x) (length columns)) by done.
  rewrite Nat.eqb_refl. do 2 f_equal.
  apply map_ext_in. intros r Hr.
  rewrite (proj1 (List.Forall_forall _ _) Hall r Hr), Nat.sub_diag.
  apply app_nil_r.
Qed.

(** [scalar_attribute_combinations] returns the segment combinations as
    a frame: one column per segment attribute, one row per tuple of
    [attribute_combination_tuples] in order, and an index that is the
    skim offset its name announces: [get_skim_offset] of the mapping
    that pairs the columns with a row is the row's index label. *)
Theorem scalar_attribute_combinations_offsets nl c :
  well_formed nl -> TapTapUidCalculator_init nl = Ok c ->
  (Z.of_nat (length (attribute_combination_tuples c)) < 2 ^ 63)%Z ->
  exists df,
    scalar_attribute_combinations c = Ok df
    /\ vf_index_name df = Some "offset"
    /\ vf_columns df = dict_keys (segmentation c)
    /\ vf_rows df = map (map Some) (attribute_combination_tuples c)
    /\ Forall2 (fun offset t =>
         get_skim_offset c (dict_of_pairs (combine (vf_columns df) t))
         = Ok (Int offset))
         (vf_index df) (attribute_combination_tuples c).
Proof.
  intros Hwf Hinit Hn.
  assert (Hall : Forall (fun row => length row
                                    = length (dict_keys (segmentation c)))
                        (attribute_combination_tuples c)).
  { apply List.Forall_forall. intros t Ht.
    rewrite (init_combination_tuples nl c Hinit) in Ht.
    apply product_In, Forall2_length in Ht.
    unfold dict_keys, dict_values in *. by rewrite !length_map in *. }
  unfold scalar_attribute_combinations.
  rewrite (pd_DataFrame_uniform _ _ Hall). simpl.
  eexists. split; [reflexivity|]. simpl. repeat split.
  apply Forall2_same_length_lookup_2.
  { unfold arange. by rewrite length_map, length_seq. }
  intros k offset t Hoff Ht.
  rewrite arange_zrange, zrange_lookup in Hoff.
  case_decide; [|done]. injection Hoff as <-. rewrite Z.add_0_l.
  destruct (skim_offset_radix nl c t Hwf Hinit Hn) as (r & Hr & Hskim).
  { by eapply list_elem_of_In, list_elem_of_lookup_2. }
  rewrite (combination_rank nl c k t Hwf Hinit Ht) in Hr.
  injection Hr as <-. exact Hskim.
Qed.

Lemma scalar_attribute_combinations_offsets_witness :
  exists df,
    scalar_attribute_combinations (scenario_calculator ["set1"]) = Ok df
    /\ vf_index df = [0; 1]%Z
    /\ vf_columns df = ["tod"]
    /\ vf_rows df = [[Some (VStr "AM")]; [Some (VStr "MD")]].
Proof.
  destruct (scalar_attribute_combinations_offsets (scenario_los ["set1"])
              (scenario_calculator ["set1"]))
    as (df & Hrun & _ & Hcols & Hrows & _).
  - apply scenario_well_formed.
  - reflexivity.
  - reflexivity.
  - exists df. split; [exact Hrun|].
    injection Hrun as <-. by repeat split.
Defined.

(** * The [memo] context manager *)

(** [memo] is transparent around a transparent body: the body runs with
    the tag pushed on [MEMO_STACK] and, when [disable_gc] is set, with
    the garbage collector disabled; its outcome, value or exception, is
    the outcome of the block; afterwards the stack and the state of the
    garbage collector are what they were before the block. *)
Theorem memo_restores {R : Type} tag console disable_gc
    (body : Process -> R * Process) p :
  transparent body ->
  exists p_in p_out,
    MEMO_STACK p_in = MEMO_STACK p ++ [tag]
    /\ gc_enabled p_in = gc_enabled p && negb disable_gc
    /\ memo tag console disable_gc body p
       = (Completed (fst (body p_in)), p_out)
    /\ MEMO_STACK p_out = MEMO_STACK p
    /\ gc_enabled p_out = gc_enabled p.
Proof.
  intros Hbody. unfold memo.
  set (p1 := set_MEMO_STACK (MEMO_STACK p ++ [tag]) p).
  set (p2 := if (1 <? length (MEMO_STACK p1))%nat
             then trace_memo (LogNested (MEMO_STACK p1)) p1 else p1).
  assert (H2 : MEMO_STACK p2 = MEMO_STACK p ++ [tag]
               /\ gc_enabled p2 = gc_enabled p).
  { unfold p2. by destruct (1 <? _)%nat. }
  destruct H2 as [Hs2 Hg2].
  set (p3 := if gc_enabled p2 then
               let q := trace_memo GcCollect p2 in
               if disable_gc
               then set_gc_enabled false (trace_memo GcDisable q) else q
             else p2).
  assert (H3 : MEMO_STACK p3 = MEMO_STACK p ++ [tag]
               /\ gc_enabled p3 = gc_enabled p && negb disable_gc).
  { unfold p3. rewrite Hg2.
    destruct (gc_enabled p) eqn:Hg, disable_gc; simpl; by rewrite ?Hs2. }
  destruct H3 as [Hs3 Hg3].
  destruct (Hbody p3) as [Hs4 Hg4].
  destruct (body p3) as [r p4] eqn:Hrun. simpl in Hs4, Hg4.
  exists p3. rewrite Hrun. simpl.
  set (p5 := if gc_enabled p2 && disable_gc
             then set_gc_enabled true (trace_memo GcEnable p4) else p4).
  assert (H5 : MEMO_STACK p5 = MEMO_STACK p ++ [tag]
               /\ gc_enabled p5 = gc_enabled p).
  { unfold p5. rewrite Hg2, <- Hs3, <- Hs4.
    destruct (gc_enabled p) eqn:Hg, disable_gc; simpl;
      rewrite ?Hg4, ?Hg3; by rewrite ?andb_true_r, ?andb_false_r. }
  destruct H5 as [Hs5 Hg5].
  set (p6 := if gc_enabled p5 then trace_memo GcCollect p5 else p5).
  assert (H6 : MEMO_STACK p6 = MEMO_STACK p ++ [tag]
               /\ gc_enabled p6 = gc_enabled p).
  { unfold p6. destruct (gc_enabled p5) eqn:E; simpl; split; congruence. }
  destruct H6 as [Hs6 Hg6].
  rewrite Hs6.
  destruct (MEMO_STACK p ++ [tag]) as [|x l] eqn:Hst.
  { by destruct (MEMO_STACK p). }
  eexists. split; [done|]. split; [done|]. split; [reflexivity|].
  rewrite <- Hst, removelast_last. by split.
Qed.

Lemma memo_restores_witness :
  exists r p_out,
    memo "outer" false true
      (memo "inner" true true (fun p => (Raise KeyError : result unit, p)))
      {| MEMO_STACK := []; gc_enabled := true; memo_trace := [] |}
    = (Completed r, p_out)
    /\ MEMO_STACK p_out = [] /\ gc_enabled p_out = true.
Proof.
  destruct (memo_restores "outer" false true
              (memo "inner" true true
                 (fun p => (Raise KeyError : result unit, p)))
              {| MEMO_STACK := []; gc_enabled := true; memo_trace := [] |})
    as (p_in & p_out & _ & _ & Hrun & Hs & Hg).
  - intros p.
    destruct (memo_restores "inner" true true
                (fun p => (Raise KeyError : result unit, p)) p)
      as (q_in & q_out & _ & _ & Hq & Hqs & Hqg); [by intros q|].
    by rewrite Hq.
  - by eexists _, p_out.
Defined.

(** * Further properties of the cache store *)

(** ** The store's methods, case by case *)

Lemma cache_path_run s w cache_type :
  run (cache_path cache_type) s w =
  (if String.eqb cache_type DYNAMIC then Ok (cache_file s "feather")
   else if String.eqb cache_type STATIC then Ok (cache_file s "mmap")
   else if String.eqb cache_type TRACE then Ok (cache_file s "csv")
   else Raise AssertionError, (s, w)).
Proof.
  unfold cache_path. run_store.
  destruct (String.eqb cache_type DYNAMIC); [done|].
  destruct (String.eqb cache_type STATIC); [done|].
  by destruct (String.eqb cache_type TRACE).
Qed.

Lemma open_static_cases s w data :
  run (open_static data) s w =
  match reshape_rows data (length (set_names (uid_calculator s))) with
  | Raise e => (Raise e, (s, w))
  | Ok rows =>
      match fully_populated_uids (uid_calculator s) with
      | Raise e => (Raise e, (s, w))
      | Ok uids =>
          if (length rows =? length uids)%nat
          then (Ok tt, (set_df (Some (zip uids rows)) s, w))
          else (Raise AssertionError, (s, w))
      end
  end.
Proof.
  unfold open_static. run_store.
  destruct (reshape_rows _ _) as [rows|e]; [|done]. run_store.
  destruct (fully_populated_uids _) as [uids|e]; [|done]. run_store.
  by destruct (length rows =? length uids)%nat.
Qed.

Lemma open_run s w for_rebuild :
  run (open for_rebuild) s w =
  if is_open s then (Raise AssertionError, (s, w)) else
  let s1 := set_is_open true s in
  if for_rebuild then (Ok tt, (s1, w)) else
  if multiprocess (network_los s) then
    let w1 := add_event (GetInjectable "data_buffers") w in
    match data_buffers w with
    | None => (Raise TypeError, (s1, w1))
    | Some buffers =>
        match buffers !! cache_tag s with
        | None => (Raise AssertionError, (s1, w1))
        | Some data_buffer =>
            match as_array data_buffer with
            | Ok data => run (open_static data) s1 w1
            | Raise e => (Raise e, (s1, w1))
            end
        end
    end
  else
    let w1 := add_event (IsFile (cache_file s "mmap")) w in
    match fs w !! cache_file s "mmap" with
    | Some f =>
        let w2 := add_event (MemmapRead (cache_file s "mmap")) w1 in
        match f with
        | MmapFile data => run (open_static data) s1 w2
        | _ => (Raise ValueError, (s1, w2))
        end
    | None =>
        let w2 := add_event (IsFile (cache_file s "feather")) w1 in
        match fs w !! cache_file s "feather" with
        | Some f =>
            let w3 := add_event (ReadFeather (cache_file s "feather")) w2 in
            match f with
            | FeatherFile t =>
                if duplicated_any (table_index t)
                then (Raise AssertionError, (s1, w3))
                else (Ok tt, (set_df (Some t) s1, w3))
            | _ => (Raise ValueError, (s1, w3))
            end
        | None => (Ok tt, (s1, w2))
        end
    end.
Proof.
  unfold open. run_store.
  destruct (is_open s); run_store; [done|].
  destruct for_rebuild; [done|].
  destruct (multiprocess (network_los s)).
  - unfold get_data_and_lock_from_buffers. run_store.
    destruct (data_buffers w) as [buffers|]; [|done].
    destruct (buffers !! cache_tag s) as [b|]; [|done]. run_store.
    by destruct (as_array b).
  - unfold cache_path, isfile, memmap_read, read_feather.
    destruct (fs w !! cache_file s "mmap") as [f|] eqn:Hm;
      [|destruct (fs w !! cache_file s "feather") as [f|] eqn:Hf];
      do 4 (run_store;
            change (cache_file (set_is_open true s)) with (cache_file s);
            rewrite ?Hm, ?Hf);
      try done; destruct f; try done.
    run_store. by destruct (duplicated_any _).
Qed.

Lemma flush_run s w :
  run flush s w =
  if is_open s then
    match _df s with
    | None => (Raise AttributeError, (s, w))
    | Some t =>
        if duplicated_any (table_index t) then (Raise AssertionError, (s, w))
        else if is_changed s then
          if fully_populated s then (Raise AssertionError, (s, w))
          else
            let s' := if rebuild_tvpb_cache (network_los s)
                      then set_is_changed false s else s in
            let w1 := if rebuild_tvpb_cache (network_los s)
                      then store_file (ToFeather (cache_file s "feather"))
                             (cache_file s "feather") (FeatherFile t) w
                      else w in
            let w2 := if trace_tvpb_cache_as_csv (network_los s)
                      then store_file (ToCsv (cache_file s "csv"))
                             (cache_file s "csv") (CsvFile t) w1
                      else w1 in
            (Ok tt, (s', w2))
        else (Ok tt, (s, w))
    end
  else (Raise AssertionError, (s, w)).
Proof.
  destruct (is_open s) eqn:Hopen.
  2:{ unfold flush. run_store. by rewrite Hopen. }
  destruct (_df s) as [t|] eqn:Hdf; [|by apply flush_without_table].
  destruct (duplicated_any (table_index t)) eqn:Hdup.
  { unfold flush, the_df. run_store. rewrite Hopen. run_store.
    rewrite Hdf. run_store. by rewrite Hdup. }
  apply duplicated_any_false in Hdup.
  destruct (is_changed s) eqn:Hch; [|by apply flush_unchanged with t].
  destruct (fully_populated s) eqn:Hfull; [by apply flush_full|].
  by apply flush_partial.
Qed.

Lemma write_static_cache_run s w data :
  run (write_static_cache data) s w =
  if negb (is_open s) && bool_decide (_df s = None) && negb (is_changed s)
  then
    if (length data =? iprod (fully_populated_shape (uid_calculator s)))%nat
    then (Ok tt, (s, store_file (MemmapWrite (cache_file s "mmap"))
                       (cache_file s "mmap") (MmapFile data) w))
    else (Raise ValueError, (s, w))
  else (Raise AssertionError, (s, w)).
Proof.
  unfold write_static_cache, cache_path, memmap_write, iprod. run_store.
  destruct (is_open s); run_store; [done|].
  destruct (bool_decide (_df s = None)); run_store; [|done].
  destruct (is_changed s); run_store; [done|].
  by destruct (length data =? _)%nat.
Qed.

Lemma load_data_to_buffer_run s w data_buffer :
  run (load_data_to_buffer data_buffer) s w =
  if is_open s then (Raise AssertionError, (s, w)) else
  match data_buffer with
  | NumpyArray _ => (Raise AttributeError, (s, w))
  | SharedArray dst =>
      let w1 := add_event (IsFile (cache_file s "mmap")) w in
      match fs w !! cache_file s "mmap" with
      | None => (Ok (SharedArray (repeat F32_nan (length dst))), (s, w1))
      | Some f =>
          let w2 := add_event (MemmapRead (cache_file s "mmap")) w1 in
          match f with
          | MmapFile data =>
              match copyto dst data with
              | Ok filled => (Ok (SharedArray filled), (s, w2))
              | Raise e => (Raise e, (s, w2))
              end
          | _ => (Raise ValueError, (s, w2))
          end
      end
  end.
Proof.
  unfold load_data_to_buffer, cache_path, isfile, memmap_read. run_store.
  destruct (is_open s); run_store; [done|].
  destruct data_buffer as [d|dst]; run_store; [done|].
  destruct (fs w !! cache_file s "mmap") as [f|] eqn:Hm; run_store;
    try done.
  rewrite Hm. by destruct f.
Qed.

Lemma cleanup_one_run s w file_type cache_type :
  run (cache_path cache_type) s w = (Ok (cache_file s file_type), (s, w)) ->
  run (cleanup_one cache_type) s w =
  (Ok tt,
   (s, let p := cache_file s file_type in
       let w1 := add_event (IsFile p) w in
       match fs w !! p with
       | Some _ => set_fs (delete p (fs w)) (add_event (Unlink p) w1)
       | None => w1
       end)).
Proof.
  intros Hpath. unfold cleanup_one, isfile, unlink.
  unfold run, mbind, M_bind in *. rewrite Hpath. run_store.
  destruct (fs w !! cache_file s file_type) eqn:Hf; run_store; try done.
  pose proof (Hpath' := Hpath).
  unfold cache_path in Hpath |- *. run_store.
  destruct (String.eqb cache_type DYNAMIC);
    [|destruct (String.eqb cache_type STATIC);
      [|destruct (String.eqb cache_type TRACE); [|done]]];
    injection Hpath as ->; done.
Qed.

(** ** Opening, and what a failed or empty [open] leaves *)

Lemma open_static_failure s w data e s' w' :
  run (open_static data) s w = (Raise e, (s', w')) -> s' = s /\ w' = w.
Proof.
  rewrite open_static_cases.
  destruct (reshape_rows _ _) as [rows|?]; [|by intros [= _ <- <-]].
  destruct (fully_populated_uids _) as [uids|?]; [|by intros [= _ <- <-]].
  destruct (length rows =? length uids)%nat; [done|by intros [= _ <- <-]].
Qed.

Lemma open_failure s w for_rebuild e s' w' :
  is_open s = false ->
  run (open for_rebuild) s w = (Raise e, (s', w')) ->
  s' = set_is_open true s.
Proof.
  intros Hopen. rewrite open_run, Hopen. cbn zeta.
  destruct for_rebuild; [done|].
  destruct (multiprocess (network_los s)).
  - destruct (data_buffers w) as [bs|]; [|by intros [= _ <- _]].
    destruct (bs !! cache_tag s) as [b|]; [|by intros [= _ <- _]].
    destruct (as_array b); [|by intros [= _ <- _]].
    by intros [-> _]%open_static_failure.
  - destruct (fs w !! cache_file s "mmap") as [f|].
    + destruct f; try by intros [= _ <- _].
      by intros [-> _]%open_static_failure.
    + destruct (fs w !! cache_file s "feather") as [f|];
        [|by intros [= _ <- _]].
      destruct f; try by intros [= _ <- _].
      by destruct (duplicated_any _); intros [= _ <- _].
Qed.

Lemma close_without_table s w :
  is_open s = true -> _df s = None ->
  run close s w = (Raise AttributeError, (s, w)).
Proof.
  intros Hopen Hdf. by rewrite close_run, Hopen, flush_without_table.
Qed.

(** [open] marks the store open before it loads anything, so a failed
    [open] (a missing or ill-sized buffer or file, a duplicated uid in
    the dynamic file) leaves a closed store marked open, without a
    table.  The store then accepts neither [open] (already open) nor
    [flush] or [close], which fail on the missing table. *)
Theorem failed_open_leaves_store_open s w for_rebuild e s' w' :
  is_open s = false -> _df s = None ->
  run (open for_rebuild) s w = (Raise e, (s', w')) ->
  s' = set_is_open true s
  /\ (forall again,
        run (open again) s' w' = (Raise AssertionError, (s', w')))
  /\ run flush s' w' = (Raise AttributeError, (s', w'))
  /\ run close s' w' = (Raise AttributeError, (s', w')).
Proof.
  intros Hopen Hdf Hrun.
  pose proof (open_failure s w for_rebuild e s' w' Hopen Hrun) as ->.
  split; [done|]. split; [|split].
  - intros again. by rewrite open_run.
  - by apply flush_without_table.
  - by apply close_without_table.
Qed.

Lemma failed_open_leaves_store_open_witness :
  exists e s' w',
    run (open false) scenario_store
        {| fs := {[ "cache/tap_tap.mmap" := MmapFile [F32 1; F32 2] ]};
           data_buffers := None; events := [] |}
    = (Raise e, (s', w'))
    /\ is_open s' = true
    /\ run close s' w' = (Raise AttributeError, (s', w')).
Proof.
  match goal with
  | |- context [run (open false) scenario_store ?w0] => set (w := w0)
  end.
  destruct (run (open false) scenario_store w) as [r [s' w']] eqn:Hrun.
  assert (Hr : r = Raise AssertionError).
  { apply (f_equal fst) in Hrun. vm_compute in Hrun. congruence. }
  subst r.
  destruct (failed_open_leaves_store_open scenario_store w false
              AssertionError s' w')
    as (Hs & _ & _ & Hclose); [reflexivity|reflexivity|exact Hrun|].
  exists AssertionError, s', w'.
  split; [reflexivity|]. split; [by rewrite Hs|exact Hclose].
Defined.

(** A store opened without anything to load (for a rebuild, or in a
    single process with neither a static nor a dynamic file) is open
    with no table, and it cannot be flushed or closed as it is: both
    fail on the missing table and leave the store open. *)
Theorem store_opened_empty_cannot_close s w for_rebuild :
  is_open s = false -> _df s = None ->
  for_rebuild = true
  \/ (multiprocess (network_los s) = false
      /\ fs w !! cache_file s "mmap" = None
      /\ fs w !! cache_file s "feather" = None) ->
  exists w',
    run (open for_rebuild) s w = (Ok tt, (set_is_open true s, w'))
    /\ fs w' = fs w
    /\ run flush (set_is_open true s) w'
       = (Raise AttributeError, (set_is_open true s, w'))
    /\ run close (set_is_open true s) w'
       = (Raise AttributeError, (set_is_open true s, w')).
Proof.
  intros Hopen Hdf Hcase.
  assert (exists w', run (open for_rebuild) s w
                     = (Ok tt, (set_is_open true s, w')) /\ fs w' = fs w)
    as (w' & Hrun & Hfs).
  { rewrite open_run, Hopen. cbn zeta.
    destruct Hcase as [->|(Hmp & Hm & Hf)]; [by eexists|].
    destruct for_rebuild; [by eexists|]. rewrite Hmp, Hm, Hf. by eexists. }
  exists w'. split; [done|]. split; [done|].
  split; [by apply flush_without_table|by apply close_without_table].
Qed.

Lemma store_opened_empty_cannot_close_witness :
  exists w',
    run (open true) scenario_store stocked_world
    = (Ok tt, (scenario_open, w'))
    /\ run close scenario_open w' = (Raise AttributeError, (scenario_open, w')).
Proof.
  destruct (store_opened_empty_cannot_close scenario_store stocked_world true)
    as (w' & Hrun & _ & _ & Hclose); [reflexivity|reflexivity|by left|].
  by exists w'.
Defined.

(** ** Tables loaded from the shared buffer or the static file *)

Lemma open_static_success s w data s' w' :
  run (open_static data) s w = (Ok tt, (s', w')) ->
  w' = w
  /\ exists t, s' = set_df (Some t) s
       /\ table_index t = arange (fully_populated_rows (uid_calculator s))
       /\ table_values t = data.
Proof.
  rewrite open_static_cases. unfold reshape_rows, fully_populated_uids.
  destruct (length (set_names (uid_calculator s)) =? 0)%nat eqn:Hc; [done|].
  destruct (length data mod _ =? 0)%nat eqn:Hmod; [|done].
  destruct (_ <? _)%Z; [|done].
  destruct (length (chunks _ _ _) =? _)%nat eqn:Hlen; [|done].
  intros [= <- <-]. split; [done|]. eexists. split; [reflexivity|].
  apply Nat.eqb_eq in Hlen. apply Nat.eqb_neq in Hc.
  apply Nat.eqb_eq in Hmod.
  set (n := length (set_names (uid_calculator s))) in *.
  destruct (chunks_exact n (length data / n) data (length data))
    as [Hl Hcat]; [lia| | |].
  { pose proof (Nat.div_mod_eq (length data) n). lia. }
  { apply Nat.Div0.div_le_upper_bound. nia. }
  split.
  - unfold table_index. apply fst_zip. lia.
  - unfold table_values. change (map snd ?l) with (l.*2).
    rewrite snd_zip by lia. exact Hcat.
Qed.

(** A table that [open] loads from the shared buffer (multiprocessing)
    or from the static file is the fully populated table: labelled by
    the uids in ascending order, holding the data of its source row by
    row.  The dynamic file is not read, the file system is untouched,
    and the store then rejects every [extend_table]. *)
Theorem loaded_static_table_is_full s w s' w' :
  is_open s = false ->
  multiprocess (network_los s) = true
  \/ is_Some (fs w !! cache_file s "mmap") ->
  run (open false) s w = (Ok tt, (s', w')) ->
  exists t,
    _df s' = Some t /\ is_open s' = true
    /\ table_index t = arange (fully_populated_rows (uid_calculator s))
    /\ (multiprocess (network_los s) = false ->
        fs w !! cache_file s "mmap" = Some (MmapFile (table_values t)))
    /\ (forall buffers data,
          multiprocess (network_los s) = true ->
          data_buffers w = Some buffers ->
          buffers !! cache_tag s = Some (SharedArray data) ->
          table_values t = data)
    /\ fully_populated s' = true
    /\ fs w' = fs w
    /\ (forall p, In (ReadFeather p) (events w') ->
                  In (ReadFeather p) (events w))
    /\ forall new_rows,
         run (extend_table new_rows) s' w' = (Raise AssertionError, (s', w')).
Proof.
  intros Hopen Hsrc. rewrite open_run, Hopen. cbn zeta.
  assert (Hfinish : forall data w1,
    fs w1 = fs w ->
    (forall p, In (ReadFeather p) (events w1) -> In (ReadFeather p) (events w)) ->
    run (open_static data) (set_is_open true s) w1 = (Ok tt, (s', w')) ->
    exists t,
      _df s' = Some t /\ is_open s' = true
      /\ table_index t = arange (fully_populated_rows (uid_calculator s))
      /\ table_values t = data
      /\ fully_populated s' = true
      /\ fs w' = fs w
      /\ (forall p, In (ReadFeather p) (events w') ->
                    In (ReadFeather p) (events w))
      /\ forall new_rows,
           run (extend_table new_rows) s' w'
           = (Raise AssertionError, (s', w'))).
  { intros data w1 Hfs Hev [-> (t & -> & Hidx & Hvals)]%open_static_success.
    exists t. simpl in Hidx.
    assert (Hfull : fully_populated (set_df (Some t) (set_is_open true s))
                    = true).
    { unfold fully_populated. simpl. apply Nat.eqb_eq.
      apply (f_equal length) in Hidx. unfold table_index, arange in Hidx.
      by rewrite !length_map, length_seq in Hidx. }
    repeat split; try done.
    intros new_rows. rewrite extend_table_run, Hfull.
    by rewrite andb_false_r. }
  destruct (multiprocess (network_los s)) eqn:Hmp.
  - destruct (data_buffers w) as [bs|] eqn:Hbs; [|done].
    destruct (bs !! cache_tag s) as [b|] eqn:Hb; [|done].
    destruct b as [d|d]; [done|]. simpl.
    intros Hrun.
    edestruct (Hfinish d) as (t & ? & ? & ? & Hvals & ? & ? & ? & ?);
      [| |exact Hrun|].
    { done. }
    { simpl. intros p. rewrite in_app_iff. by intros [?|[?|[]]]. }
    exists t. repeat split; try done.
    intros buffers data _ [= <-] Hb'. rewrite Hb in Hb'.
    injection Hb' as <-. exact Hvals.
  - destruct Hsrc as [?|[f Hf]]; [done|]. rewrite Hf.
    destruct f as [data| |]; try done.
    intros Hrun.
    edestruct (Hfinish data) as (t & ? & ? & ? & Hvals & ? & ? & ? & ?);
      [| |exact Hrun|].
    { done. }
    { simpl. intros p. rewrite !in_app_iff. simpl.
      by intros [[?|[?|[]]]|[?|[]]]. }
    exists t. repeat split; try done. by rewrite Hvals.
Qed.

Lemma loaded_static_table_is_full_witness :
  exists s' w' t,
    run (open false) scenario_store stocked_world = (Ok tt, (s', w'))
    /\ _df s' = Some t
    /\ table_index t = arange 8
    /\ run (extend_table (rows_with [100]%Z)) s' w'
       = (Raise AssertionError, (s', w')).
Proof.
  destruct (run (open false) scenario_store stocked_world)
    as [r [s' w']] eqn:Hrun.
  assert (Hr : r = Ok tt).
  { apply (f_equal fst) in Hrun. vm_compute in Hrun. congruence. }
  subst r.
  destruct (loaded_static_table_is_full scenario_store stocked_world s' w')
    as (t & Hdf & _ & Hidx & _ & _ & _ & _ & _ & Hext);
    [reflexivity|right; by eexists|exact Hrun|].
  exists s', w', t. repeat split; try done.
Defined.

(** In multiprocessing mode [open] only consults the injected
    [data_buffers]: it never probes or reads a cache file.  It fails
    with a [TypeError] when nothing was injected, an assertion error
    when the injected buffers lack the store's tag, and an
    [AttributeError] when the buffer is a plain numpy array. *)
Theorem multiprocess_open_ignores_files s w :
  is_open s = false -> multiprocess (network_los s) = true ->
  exists r s',
    run (open false) s w
    = (r, (s', add_event (GetInjectable "data_buffers") w))
    /\ (data_buffers w = None -> r = Raise TypeError)
    /\ (forall buffers, data_buffers w = Some buffers ->
          buffers !! cache_tag s = None -> r = Raise AssertionError)
    /\ (forall buffers data, data_buffers w = Some buffers ->
          buffers !! cache_tag s = Some (NumpyArray data) ->
          r = Raise AttributeError).
Proof.
  intros Hopen Hmp. rewrite open_run, Hopen, Hmp. cbn zeta.
  destruct (data_buffers w) as [bs|].
  2:{ eexists _, _. split; [reflexivity|]. by repeat split. }
  destruct (bs !! cache_tag s) as [b|] eqn:Hb.
  2:{ eexists _, _. split; [reflexivity|]. repeat split; try done.
      intros ? ? [= <-]. congruence. }
  destruct b as [d|d]; simpl.
  { eexists _, _. split; [reflexivity|]. repeat split; try done.
    intros ? [= <-]. congruence. }
  destruct (run (open_static d) (set_is_open true s)
              (add_event (GetInjectable "data_buffers") w))
    as [r [s' w']] eqn:Hrun.
  assert (w' = add_event (GetInjectable "data_buffers") w) as ->.
  { destruct r as [[]|e].
    - by apply open_static_success in Hrun as [-> _].
    - by apply open_static_failure in Hrun as [_ ->]. }
  eexists _, _. split; [reflexivity|]. repeat split; try done.
  - intros ? [= <-]. congruence.
  - intros ? ? [= <-]. congruence.
Qed.

Lemma multiprocess_open_ignores_files_witness :
  exists s',
    run (open false)
        (TVPBCache_init
           {| tap_df := Some [VInt 10; VInt 20];
              attribute_segments := [("tod", [VStr "AM"; VStr "MD"])];
              spec_columns := ["set1"];
              multiprocess := true;
              rebuild_tvpb_cache := false;
              trace_tvpb_cache_as_csv := false;
              cache_dir := "cache" |}
           (scenario_calculator ["set1"]) "tap_tap")
        {| fs := {[ "cache/tap_tap.mmap" := MmapFile (repeat (F32 1) 8) ]};
           data_buffers := None; events := [] |}
    = (Raise TypeError,
       (s', {| fs := {[ "cache/tap_tap.mmap" := MmapFile (repeat (F32 1) 8) ]};
               data_buffers := None;
               events := [GetInjectable "data_buffers"] |})).
Proof.
  match goal with
  | |- exists s', run (open false) ?s ?w = _ =>
      destruct (multiprocess_open_ignores_files s w)
        as (r & s' & Hrun & Hnone & _); [reflexivity|reflexivity|]
  end.
  exists s'. rewrite Hrun, Hnone; reflexivity.
Defined.

(** ** Failures of [flush] and [close] *)

(** Unlike [extend_table] and [open], [flush] and [close] fail without
    a trace: when either raises, the store and the files are exactly as
    they were before the call (the store stays open, with its table and
    its dirty flag, and nothing was written). *)
Theorem flush_and_close_fail_atomically s w e s' w' :
  run flush s w = (Raise e, (s', w'))
  \/ run close s w = (Raise e, (s', w')) ->
  s' = s /\ w' = w.
Proof.
  assert (Hflush : forall e s' w',
            run flush s w = (Raise e, (s', w')) -> s' = s /\ w' = w).
  { clear. intros e s' w'. rewrite flush_run.
    destruct (is_open s); [|by intros [= _ <- <-]].
    destruct (_df s) as [t|]; [|by intros [= _ <- <-]].
    destruct (duplicated_any _); [by intros [= _ <- <-]|].
    destruct (is_changed s); [|done].
    destruct (fully_populated s); [by intros [= _ <- <-]|done]. }
  intros [Hrun|Hrun]; [by eapply Hflush|].
  rewrite close_run in Hrun.
  destruct (is_open s); [|by injection Hrun as _ <- <-].
  destruct (run flush s w) as [[[]|e1] [s1 w1]] eqn:Hf; [done|].
  injection Hrun as _ <- <-. by eapply Hflush.
Qed.

Lemma flush_and_close_fail_atomically_witness :
  exists e s' w',
    run close (set_is_changed true
                 (set_df (Some (rows_with [3; 3]%Z)) scenario_open))
        stocked_world
    = (Raise e, (s', w'))
    /\ s' = set_is_changed true
              (set_df (Some (rows_with [3; 3]%Z)) scenario_open)
    /\ w' = stocked_world.
Proof.
  eexists AssertionError, _, _. split; [vm_compute; reflexivity|].
  eapply (flush_and_close_fail_atomically _ _ AssertionError). right.
  vm_compute. reflexivity.
Defined.

(** Closing a dirty, partially populated store while the rebuild flag
    is off succeeds, but the rows are dropped without being written
    (the dynamic and static files are as before) and the dirty flag
    stays set on the closed store: [write_static_cache] then refuses to
    run, and a later [open] that loads the dynamic file gives the
    file's old table to a store that still counts as changed. *)
Theorem close_without_rebuild_drops_changes s w t :
  is_open s = true -> _df s = Some t -> NoDup (table_index t) ->
  is_changed s = true -> fully_populated s = false ->
  rebuild_tvpb_cache (network_los s) = false ->
  exists s' w',
    run close s w = (Ok tt, (s', w'))
    /\ is_open s' = false /\ _df s' = None /\ is_changed s' = true
    /\ fs w' !! cache_file s "feather" = fs w !! cache_file s "feather"
    /\ fs w' !! cache_file s "mmap" = fs w !! cache_file s "mmap"
    /\ (forall data,
          run (write_static_cache data) s' w'
          = (Raise AssertionError, (s', w')))
    /\ (forall old,
          multiprocess (network_los s) = false ->
          fs w !! cache_file s "mmap" = None ->
          fs w !! cache_file s "feather" = Some (FeatherFile old) ->
          NoDup (table_index old) ->
          exists s2 w2,
            run (open false) s' w' = (Ok tt, (s2, w2))
            /\ _df s2 = Some old /\ is_changed s2 = true).
Proof.
  intros Hopen Hdf Hnd Hch Hfull Hre.
  assert (Hcf : cache_file s "csv" <> cache_file s "feather")
    by (intros H%cache_file_inj; discriminate).
  assert (Hcm : cache_file s "csv" <> cache_file s "mmap")
    by (intros H%cache_file_inj; discriminate).
  rewrite close_run, Hopen, flush_run, Hopen, Hdf.
  rewrite (proj2 (duplicated_any_false _) Hnd), Hch, Hfull, Hre. cbn zeta.
  set (w' := if trace_tvpb_cache_as_csv (network_los s) then _ else w).
  assert (Hf : fs w' !! cache_file s "feather" = fs w !! cache_file s "feather").
  { unfold w'. destruct (trace_tvpb_cache_as_csv _); [|done].
    by rewrite store_file_lookup_ne. }
  assert (Hm : fs w' !! cache_file s "mmap" = fs w !! cache_file s "mmap").
  { unfold w'. destruct (trace_tvpb_cache_as_csv _); [|done].
    by rewrite store_file_lookup_ne. }
  eexists _, w'. split; [reflexivity|]. simpl.
  repeat split; try done.
  - intros data. rewrite write_static_cache_run. simpl. by rewrite Hch.
  - intros old Hmp Hnom Hfeather Hndold.
    rewrite open_run. simpl. rewrite Hmp.
    change (cache_file (set_df None (set_is_open false s)))
      with (cache_file s).
    rewrite Hm, Hnom, Hf, Hfeather.
    rewrite (proj2 (duplicated_any_false _) Hndold).
    eexists _, _. split; [reflexivity|]. by split.
Qed.

Lemma close_without_rebuild_drops_changes_witness :
  exists s' w',
    run close (set_is_changed true
                 (set_df (Some (rows_with [3; 5]%Z)) scenario_open))
        stocked_world
    = (Ok tt, (s', w'))
    /\ is_open s' = false /\ _df s' = None /\ is_changed s' = true
    /\ fs w' !! "cache/tap_tap.feather"
       = Some (FeatherFile [(2%Z, [F32 2])]).
Proof.
  destruct (close_without_rebuild_drops_changes
              (set_is_changed true
                 (set_df (Some (rows_with [3; 5]%Z)) scenario_open))
              stocked_world (rows_with [3; 5]%Z))
    as (s' & w' & Hrun & Ho & Hd & Hc & Hf & _).
  - reflexivity.
  - reflexivity.
  - simpl. compute_done.
  - reflexivity.
  - reflexivity.
  - reflexivity.
  - exists s', w'.
    split; [exact Hrun|]. split; [exact Ho|]. split; [exact Hd|].
    split; [exact Hc|].
    change (cache_file _ "feather") with "cache/tap_tap.feather" in Hf.
    rewrite Hf. reflexivity.
Defined.

(** ** Using the store without extending it *)

Lemma open_keeps_files s w for_rebuild r s' w' :
  run (open for_rebuild) s w = (r, (s', w')) ->
  fs w' = fs w /\ is_changed s' = is_changed s.
Proof.
  assert (Hstatic : forall data s1 w1,
    run (open_static data) s1 w1 = (r, (s', w')) ->
    fs w' = fs w1 /\ is_changed s' = is_changed s1).
  { intros data s1 w1 Hrun. destruct r as [[]|e].
    - by apply open_static_success in Hrun as [-> (t & -> & _)].
    - by apply open_static_failure in Hrun as [-> ->]. }
  rewrite open_run. destruct (is_open s); [by intros [= _ <- <-]|].
  cbn zeta. destruct for_rebuild; [by intros [= _ <- <-]|].
  destruct (multiprocess (network_los s)).
  - destruct (data_buffers w) as [bs|]; [|by intros [= _ <- <-]].
    destruct (bs !! cache_tag s) as [b|]; [|by intros [= _ <- <-]].
    destruct (as_array b); [|by intros [= _ <- <-]].
    intros Hrun. by apply Hstatic in Hrun.
  - destruct (fs w !! cache_file s "mmap") as [f|].
    + destruct f; try by intros [= _ <- <-].
      intros Hrun. by apply Hstatic in Hrun.
    + destruct (fs w !! cache_file s "feather") as [f|];
        [|by intros [= _ <- <-]].
      destruct f; try by intros [= _ <- <-].
      by destruct (duplicated_any _); intros [= _ <- <-].
Qed.

Lemma flush_clean s w r s' w' :
  is_changed s = false -> run flush s w = (r, (s', w')) -> s' = s /\ w' = w.
Proof.
  intros Hch. rewrite flush_run, Hch.
  destruct (is_open s); [|by intros [= _ <- <-]].
  destruct (_df s); [|by intros [= _ <- <-]].
  by destruct (duplicated_any _); intros [= _ <- <-].
Qed.

Lemma only_reads_keeps_files m s w r s' w' :
  only_reads m = true -> is_changed s = false ->
  run (call m) s w = (r, (s', w')) ->
  fs w' = fs w /\ is_changed s' = false.
Proof.
  intros Hm Hch. destruct m; try discriminate; simpl.
  - intros [Hfs Hc]%open_keeps_files. by rewrite Hc.
  - by intros [-> ->]%flush_clean.
  - rewrite close_run. destruct (is_open s); [|by intros [= _ <- <-]].
    destruct (run flush s w) as [[[]|e] [s1 w1]] eqn:Hflush;
      apply flush_clean in Hflush as [-> ->]; try done;
      by intros [= _ <- <-].
  - unfold table. run_store. by intros [= _ <- <-].
  - unfold run, mbind, M_bind.
    destruct (is_open s) eqn:Hopen.
    + unfold allocate_data_buffer. run_store. rewrite Hopen. run_store.
      by intros [= _ <- <-].
    + pose proof (allocate_data_buffer_run s w shared Hopen) as Hrun.
      unfold run in Hrun. rewrite Hrun. by intros [= _ <- <-].
  - pose proof (load_data_to_buffer_run s w data_buffer) as Hrun.
    unfold run, mbind, M_bind in *. rewrite Hrun.
    destruct (is_open s); [by intros [= _ <- <-]|].
    destruct data_buffer as [d|dst]; [by intros [= _ <- <-]|].
    destruct (fs w !! cache_file s "mmap") as [f|];
      [|by intros [= _ <- <-]].
    destruct f; try by intros [= _ <- <-].
    by destruct (copyto dst data); intros [= _ <- <-].
Qed.

Lemma only_reads_calls ms : forall s w,
  forallb only_reads ms = true -> is_changed s = false ->
  fs (snd (calls ms s w)) = fs w /\ is_changed (fst (calls ms s w)) = false.
Proof.
  induction ms as [|m ms IH]; intros s w Hms Hch; [done|].
  simpl in *. apply andb_true_iff in Hms as [Hm Hms].
  destruct (run (call m) s w) as [r [s' w']] eqn:Hrun.
  destruct (only_reads_keeps_files m s w r s' w' Hm Hch Hrun) as [Hfs Hc].
  destruct (IH s' w' Hms Hc) as [Hfs' Hc']. split; [congruence|done].
Qed.

(** A store that is never extended never writes: driven from its
    construction by any sequence of [open], [flush], [close], [table],
    [allocate_data_buffer] and [load_data_to_buffer] calls, failing or
    not, it leaves every file as it was and stays clean. *)
Theorem read_only_use_never_writes nl c tag w0 ms :
  forallb only_reads ms = true ->
  fs (snd (calls ms (TVPBCache_init nl c tag) w0)) = fs w0
  /\ is_changed (fst (calls ms (TVPBCache_init nl c tag) w0)) = false.
Proof. intros Hms. by apply only_reads_calls. Qed.

Lemma read_only_use_never_writes_witness :
  fs (snd (calls [CallOpen false; CallFlush; CallClose; CallOpen true;
                  CallClose]
                 scenario_store stocked_world))
  = fs stocked_world.
Proof.
  apply (read_only_use_never_writes (scenario_los ["set1"])
           (scenario_calculator ["set1"]) "tap_tap" stocked_world).
  reflexivity.
Defined.

(** ** Data buffers *)




(** Without a static file the shared buffer gets its NaN fill from
    [load_data_to_buffer]: allocated zeroed by
    [allocate_data_buffer(shared=True)], it comes back with every one of
    its rows x cols elements NaN, and no file is created. *)
Theorem shared_buffer_without_static_is_nan s w :
  is_open s = false -> fs w !! cache_file s "mmap" = None ->
  exists b w1,
    run (allocate_data_buffer true) s w = (Ok b, (s, w))
    /\ run (load_data_to_buffer b) s w
       = (Ok (SharedArray
                (repeat F32_nan
                   (iprod (fully_populated_shape (uid_calculator s))))),
          (s, w1))
    /\ fs w1 = fs w.
Proof.
  intros Hopen Hfile.
  eexists _, _. split; [by apply allocate_data_buffer_run|].
  rewrite load_data_to_buffer_run, Hopen, Hfile. cbn zeta.
  by rewrite repeat_length.
Qed.

Lemma shared_buffer_without_static_is_nan_witness :
  exists b w1,
    run (allocate_data_buffer true) scenario_store empty_world
    = (Ok b, (scenario_store, empty_world))
    /\ run (load_data_to_buffer b) scenario_store empty_world
       = (Ok (SharedArray (repeat F32_nan 8)), (scenario_store, w1)).
Proof.
  destruct (shared_buffer_without_static_is_nan scenario_store empty_world)
    as (b & w1 & Ha & Hl & _); [reflexivity|reflexivity|].
  by exists b, w1.
Defined.

(** The private buffer of [allocate_data_buffer(shared=False)] is a
    plain numpy array, NaN-filled, of rows x cols elements; it is of no
    use to the rest of the store: [load_data_to_buffer] fails on it with
    an [AttributeError] (it has no [get_obj]) before probing any file,
    and so does [open] when it is injected as the store's data
    buffer. *)
Theorem private_buffer_cannot_be_loaded s w :
  is_open s = false ->
  exists b,
    run (allocate_data_buffer false) s w = (Ok b, (s, w))
    /\ b = NumpyArray
             (repeat F32_nan
                (iprod (fully_populated_shape (uid_calculator s))))
    /\ run (load_data_to_buffer b) s w = (Raise AttributeError, (s, w))
    /\ forall w2 buffers,
         multiprocess (network_los s) = true ->
         data_buffers w2 = Some buffers ->
         buffers !! cache_tag s = Some b ->
         exists st, run (open false) s w2 = (Raise AttributeError, st).
Proof.
  intros Hopen.
  eexists. split; [by apply allocate_data_buffer_run|].
  split; [done|]. split.
  - by rewrite load_data_to_buffer_run, Hopen.
  - intros w2 buffers Hmp Hbs Hb.
    rewrite open_run, Hopen, Hmp, Hbs, Hb. by eexists.
Qed.

Lemma private_buffer_cannot_be_loaded_witness :
  exists b,
    run (allocate_data_buffer false) scenario_store stocked_world
    = (Ok b, (scenario_store, stocked_world))
    /\ run (load_data_to_buffer b) scenario_store stocked_world
       = (Raise AttributeError, (scenario_store, stocked_world)).
Proof.
  destruct (private_buffer_cannot_be_loaded scenario_store stocked_world)
    as (b & Ha & _ & Hl & _); [reflexivity|].
  by exists b.
Defined.

(** ** Cache files: paths, cleanup, the static cache *)

(** The three cache types of a store have three different files, and
    [cache_path] knows no other cache type: for any other name it fails
    with an assertion error, the store and the files untouched. *)
Theorem cache_paths_distinct s w cache_type :
  (In cache_type [DYNAMIC; STATIC; TRACE] ->
   exists p, run (cache_path cache_type) s w = (Ok p, (s, w))
     /\ forall other w2 , run (cache_path other) s w2 = (Ok p, (s, w2)) ->
                          other = cache_type)
  /\ (~ In cache_type [DYNAMIC; STATIC; TRACE] ->
      run (cache_path cache_type) s w = (Raise AssertionError, (s, w))).
Proof.
  assert (Hknown : forall ct w0 p,
            run (cache_path ct) s w0 = (Ok p, (s, w0)) ->
            (ct = DYNAMIC /\ p = cache_file s "feather")
            \/ (ct = STATIC /\ p = cache_file s "mmap")
            \/ (ct = TRACE /\ p = cache_file s "csv")).
  { intros ct w0 p. rewrite cache_path_run.
    destruct (String.eqb_spec ct DYNAMIC) as [->|_];
      [intros [= <-]; by left|].
    destruct (String.eqb_spec ct STATIC) as [->|_];
      [intros [= <-]; right; by left|].
    destruct (String.eqb_spec ct TRACE) as [->|_];
      [intros [= <-]; right; by right|done]. }
  split.
  - intros Hin.
    assert (exists p, run (cache_path cache_type) s w = (Ok p, (s, w)))
      as [p Hp].
    { destruct Hin as [<-|[<-|[<-|[]]]]; rewrite cache_path_run; by eexists. }
    exists p. split; [done|]. intros other w2 Hother.
    apply Hknown in Hp, Hother.
    destruct Hp as [[-> ->]|[[-> ->]|[-> ->]]],
             Hother as [[-> H]|[[-> H]|[-> H]]];
      try done; apply cache_file_inj in H; discriminate.
  - intros Hnot. rewrite cache_path_run.
    destruct (String.eqb_spec cache_type DYNAMIC) as [->|_];
      [destruct Hnot; by left|].
    destruct (String.eqb_spec cache_type STATIC) as [->|_];
      [destruct Hnot; right; by left|].
    destruct (String.eqb_spec cache_type TRACE) as [->|_];
      [destruct Hnot; right; right; by left|done].
Qed.

Lemma cleanup_one_fs s w file_type cache_type :
  run (cache_path cache_type) s w = (Ok (cache_file s file_type), (s, w)) ->
  exists w',
    run (cleanup_one cache_type) s w = (Ok tt, (s, w'))
    /\ fs w' = delete (cache_file s file_type) (fs w)
    /\ data_buffers w' = data_buffers w.
Proof.
  intros Hpath. rewrite (cleanup_one_run s w file_type cache_type Hpath).
  eexists. split; [reflexivity|]. cbn zeta.
  destruct (fs w !! cache_file s file_type) eqn:Hf; simpl; [done|].
  by rewrite delete_id.
Qed.

Lemma cleanup_run_rebuild s w :
  rebuild_tvpb_cache (network_los s) = true ->
  exists w',
    run cleanup s w = (Ok tt, (s, w'))
    /\ fs w' = delete (cache_file s "csv")
                 (delete (cache_file s "feather")
                    (delete (cache_file s "mmap") (fs w)))
    /\ data_buffers w' = data_buffers w.
Proof.
  intros Hre.
  destruct (cleanup_one_fs s w "mmap" STATIC) as (w1 & H1 & Hfs1 & Hb1);
    [by rewrite cache_path_run|].
  destruct (cleanup_one_fs s w1 "feather" DYNAMIC)
    as (w2 & H2 & Hfs2 & Hb2); [by rewrite cache_path_run|].
  destruct (cleanup_one_fs s w2 "csv" TRACE) as (w3 & H3 & Hfs3 & Hb3);
    [by rewrite cache_path_run|].
  exists w3. split; [|split; congruence].
  unfold cleanup, run, mbind, M_bind, self in *. simpl. rewrite Hre.
  rewrite H1, H2. exact H3.
Qed.

(** [cleanup] does nothing unless the rebuild flag is set; with the
    flag it removes the static, dynamic and trace files of the store
    (each only if it exists), leaves every other file as it is, and
    never fails.  The store itself is not changed. *)
Theorem cleanup_removes_only_cache_files s w :
  exists w',
    run cleanup s w = (Ok tt, (s, w'))
    /\ data_buffers w' = data_buffers w
    /\ (rebuild_tvpb_cache (network_los s) = false -> w' = w)
    /\ (rebuild_tvpb_cache (network_los s) = true ->
        (forall file_type, In file_type ["mmap"; "feather"; "csv"] ->
           fs w' !! cache_file s file_type = None)
        /\ (forall p,
              (forall file_type, In file_type ["mmap"; "feather"; "csv"] ->
                 p <> cache_file s file_type) ->
              fs w' !! p = fs w !! p)).
Proof.
  destruct (rebuild_tvpb_cache (network_los s)) eqn:Hre.
  2:{ exists w. unfold cleanup. run_store. rewrite Hre. by repeat split. }
  destruct (cleanup_run_rebuild s w Hre) as (w' & Hrun & Hfs & Hb).
  exists w'. split; [done|]. split; [done|]. split; [done|]. intros _.
  rewrite Hfs. split.
  - intros file_type [<-|[<-|[<-|[]]]].
    + rewrite !lookup_delete_ne
        by (intros H%cache_file_inj; discriminate).
      apply lookup_delete_eq.
    + rewrite lookup_delete_ne
        by (intros H%cache_file_inj; discriminate).
      apply lookup_delete_eq.
    + apply lookup_delete_eq.
  - intros p Hp. rewrite !lookup_delete_ne; [done|..];
      intros <-; eapply Hp; try reflexivity; simpl; tauto.
Qed.


(** ** Extending, and the rebuild cycle *)

Lemma run_bind {A B : Type} (m : M A) (f : A -> M B) s w :
  run (m ≫= f) s w
  = match run m s w with
    | (Ok a, (s1, w1)) => run (f a) s1 w1
    | (Raise e, st) => (Raise e, st)
    end.
Proof.
  unfold run, mbind, M_bind. by destruct (m (s, w)) as [[a|e] [s1 w1]].
Qed.

(** Two successful [extend_table] calls in a row amount to one call
    with the rows of both: the same table, old rows first, then the
    rows of the first and of the second call. *)
Theorem extend_table_accumulates s w rows1 rows2 st :
  run (extend_table rows1;; extend_table rows2) s w = (Ok tt, st) ->
  run (extend_table (rows1 ++ rows2)) s w = (Ok tt, st)
  /\ _df (fst st) = Some (rows_of (_df s) ++ rows1 ++ rows2)
  /\ snd st = w.
Proof.
  rewrite run_bind, !extend_table_run.
  destruct (0 <? length rows1)%nat eqn:H1; [|done].
  destruct (is_open s) eqn:Hopen; [|done].
  destruct (fully_populated s) eqn:Hfull; [done|]. simpl.
  destruct (duplicated_any (table_index (rows_of (_df s) ++ rows1)));
    [done|].
  rewrite extend_table_run.
  destruct (0 <? length rows2)%nat eqn:H2; [|done]. simpl.
  rewrite Hopen. simpl.
  destruct (fully_populated (extended rows1 s)); [done|]. simpl.
  rewrite <- app_assoc.
  destruct (duplicated_any _); [done|]. intros [= <-].
  assert (H12 : (0 <? length (rows1 ++ rows2))%nat = true).
  { apply Nat.ltb_lt in H1. apply Nat.ltb_lt. rewrite length_app. lia. }
  rewrite H12. simpl.
  assert (Hsame : extended (rows1 ++ rows2) s
                  = extended rows2 (extended rows1 s)).
  { unfold extended. simpl. by rewrite <- app_assoc. }
  rewrite Hsame. split; [done|]. split; [|done].
  unfold extended. simpl. by rewrite <- app_assoc.
Qed.

Lemma extend_table_accumulates_witness :
  exists st,
    run (extend_table (rows_with [3]%Z ++ rows_with [5]%Z))
        scenario_open empty_world
    = (Ok tt, st)
    /\ _df (fst st) = Some (rows_with [3; 5]%Z).
Proof.
  destruct (run (extend_table (rows_with [3]%Z);;
                 extend_table (rows_with [5]%Z))
                scenario_open empty_world) as [r st] eqn:Hrun.
  assert (Hr : r = Ok tt).
  { apply (f_equal fst) in Hrun. vm_compute in Hrun. congruence. }
  subst r.
  destruct (extend_table_accumulates scenario_open empty_world
              (rows_with [3]%Z) (rows_with [5]%Z) st Hrun)
    as (Hone & Hdf & _).
  exists st. split; [exact Hone|exact Hdf].
Defined.

(** The rebuild cycle persists the rows: with the rebuild flag set, in
    a single process, [cleanup], [open(for_rebuild=True)],
    [extend_table(rows)] and [close] on a new store leave the rows in
    the dynamic file and the store closed and clean, and the next
    [open] loads them back, provided the rows are non-empty, have
    distinct uids and do not fill the table (a full table cannot be
    flushed). *)
Theorem rebuild_cycle_persists_rows nl c tag w rows :
  rebuild_tvpb_cache nl = true -> multiprocess nl = false ->
  rows <> [] -> NoDup (table_index rows) ->
  length rows <> fully_populated_rows c ->
  exists s1 w1 s2 w2,
    run (cleanup;; open true;; extend_table rows;; close)
        (TVPBCache_init nl c tag) w
    = (Ok tt, (s1, w1))
    /\ is_open s1 = false /\ _df s1 = None /\ is_changed s1 = false
    /\ fs w1 !! cache_file s1 "feather" = Some (FeatherFile rows)
    /\ run (open false) s1 w1 = (Ok tt, (s2, w2))
    /\ _df s2 = Some rows.
Proof.
  intros Hre Hmp Hne Hnd Hlen.
  set (s0 := TVPBCache_init nl c tag).
  assert (Hfm : cache_file s0 "feather" <> cache_file s0 "mmap")
    by (intros H%cache_file_inj; discriminate).
  assert (Hcm : cache_file s0 "csv" <> cache_file s0 "mmap")
    by (intros H%cache_file_inj; discriminate).
  assert (Hcf : cache_file s0 "csv" <> cache_file s0 "feather")
    by (intros H%cache_file_inj; discriminate).
  destruct (cleanup_run_rebuild s0 w Hre) as (w0 & Hclean & Hfs0 & _).
  assert (Hm0 : fs w0 !! cache_file s0 "mmap" = None).
  { rewrite Hfs0, !lookup_delete_ne by done. apply lookup_delete_eq. }
  set (so := set_is_open true s0).
  set (sx := extended rows so).
  assert (Hext : run (extend_table rows) so w0 = (Ok tt, (sx, w0))).
  { rewrite extend_table_run. simpl.
    destruct rows as [|row rows']; [done|]. simpl.
    by rewrite (proj2 (duplicated_any_false _) Hnd). }
  assert (Hfull : fully_populated sx = false).
  { unfold fully_populated. simpl. by apply Nat.eqb_neq. }
  set (wf := store_file (ToFeather (cache_file s0 "feather"))
               (cache_file s0 "feather") (FeatherFile rows) w0).
  set (w1 := if trace_tvpb_cache_as_csv nl
             then store_file (ToCsv (cache_file s0 "csv"))
                    (cache_file s0 "csv") (CsvFile rows) wf
             else wf).
  set (s1 := set_df None (set_is_open false (set_is_changed false sx))).
  assert (Hclose : run close sx w0 = (Ok tt, (s1, w1))).
  { rewrite close_run, flush_run. simpl.
    rewrite (proj2 (duplicated_any_false _) Hnd).
    change (match _df sx with Some t => _ | None => false end)
      with (fully_populated sx) in *.
    fold (fully_populated sx). rewrite Hfull, Hre. done. }
  assert (Hm1 : fs w1 !! cache_file s0 "mmap" = None).
  { unfold w1, wf. destruct (trace_tvpb_cache_as_csv nl);
      rewrite ?store_file_lookup_ne by done; done. }
  assert (Hf1 : fs w1 !! cache_file s0 "feather" = Some (FeatherFile rows)).
  { unfold w1, wf. destruct (trace_tvpb_cache_as_csv nl);
      [rewrite store_file_lookup_ne by done|]; apply store_file_lookup. }
  eexists s1, w1, _, _. split.
  { rewrite run_bind, Hclean, run_bind, open_for_rebuild_run by done.
    fold so. by rewrite run_bind, Hext. }
  split; [done|]. split; [done|]. split; [done|]. split; [exact Hf1|].
  rewrite open_run. simpl. rewrite Hmp.
  change (cache_file s1) with (cache_file s0).
  rewrite Hm1, Hf1, (proj2 (duplicated_any_false _) Hnd).
  split; [reflexivity|done].
Qed.

Lemma rebuild_cycle_persists_rows_witness :
  exists s1 w1 s2 w2,
    run (cleanup;; open true;; extend_table (rows_with [3; 5]%Z);; close)
        (TVPBCache_init
           {| tap_df := Some [VInt 10; VInt 20];
              attribute_segments := [("tod", [VStr "AM"; VStr "MD"])];
              spec_columns := ["set1"];
              multiprocess := false;
              rebuild_tvpb_cache := true;
              trace_tvpb_cache_as_csv := false;
              cache_dir := "cache" |}
           (scenario_calculator ["set1"]) "tap_tap")
        stocked_world
    = (Ok tt, (s1, w1))
    /\ is_open s1 = false
    /\ run (open false) s1 w1 = (Ok tt, (s2, w2))
    /\ _df s2 = Some (rows_with [3; 5]%Z).
Proof.
  match goal with
  | |- exists s1 w1 s2 w2, run _ (TVPBCache_init ?nl ?c ?tag) ?w = _ /\ _ =>
      destruct (rebuild_cycle_persists_rows nl c tag w (rows_with [3; 5]%Z))
        as (s1 & w1 & s2 & w2 & Hrun & Ho & _ & _ & _ & Hopen & Hdf)
  end.
  - reflexivity.
  - reflexivity.
  - discriminate.
  - simpl. compute_done.
  - vm_compute. lia.
  - by exists s1, w1, s2, w2.
Defined.

(** ** The trace file *)

(** Flushing a dirty, partially populated table touches at most two
    files, the store's dynamic file and its trace file: with
    [trace_tvpb_cache_as_csv] set the table is written to the trace
    (csv) file on every such flush, also when the rebuild flag is off
    and the dynamic file is not written (the store then stays dirty);
    without it the trace file is left alone.  The static file and every
    other file are as before. *)
Theorem flush_writes_trace_csv s w t :
  is_open s = true -> _df s = Some t -> NoDup (table_index t) ->
  is_changed s = true -> fully_populated s = false ->
  exists s' w',
    run flush s w = (Ok tt, (s', w'))
    /\ (trace_tvpb_cache_as_csv (network_los s) = true ->
        fs w' !! cache_file s "csv" = Some (CsvFile t)
        /\ In (ToCsv (cache_file s "csv")) (events w'))
    /\ (trace_tvpb_cache_as_csv (network_los s) = false ->
        fs w' !! cache_file s "csv" = fs w !! cache_file s "csv")
    /\ is_changed s' = negb (rebuild_tvpb_cache (network_los s))
    /\ _df s' = Some t /\ is_open s' = true
    /\ forall p, p <> cache_file s "csv" -> p <> cache_file s "feather" ->
         fs w' !! p = fs w !! p.
Proof.
  intros Hopen Hdf Hnd Hch Hfull.
  assert (Hcf : cache_file s "feather" <> cache_file s "csv")
    by (intros H%cache_file_inj; discriminate).
  rewrite flush_run, Hopen, Hdf, (proj2 (duplicated_any_false _) Hnd).
  rewrite Hch, Hfull. cbn zeta.
  eexists _, _. split; [reflexivity|].
  destruct (rebuild_tvpb_cache (network_los s)),
    (trace_tvpb_cache_as_csv (network_los s)); cbn [negb].
  - split; [intros _|split; [done|]].
    { rewrite store_file_lookup, store_file_events, in_app_iff.
      simpl. tauto. }
    repeat split; try done.
    intros p Hp1 Hp2. by rewrite !store_file_lookup_ne.
  - split; [done|]. split; [intros _; by rewrite store_file_lookup_ne|].
    repeat split; try done.
    intros p Hp1 Hp2. by rewrite store_file_lookup_ne.
  - split; [intros _|split; [done|]].
    { rewrite store_file_lookup, store_file_events, in_app_iff.
      simpl. tauto. }
    repeat split; try done.
    intros p Hp1 Hp2. by rewrite store_file_lookup_ne.
  - by repeat split.
Qed.

Lemma flush_writes_trace_csv_witness :
  exists s' w',
    run flush
        (set_is_changed true
           (set_df (Some (rows_with [3; 5]%Z))
              (set_is_open true
                 (TVPBCache_init
                    {| tap_df := Some [VInt 10; VInt 20];
                       attribute_segments := [("tod", [VStr "AM"; VStr "MD"])];
                       spec_columns := ["set1"];
                       multiprocess := false;
                       rebuild_tvpb_cache := false;
                       trace_tvpb_cache_as_csv := true;
                       cache_dir := "cache" |}
                    (scenario_calculator ["set1"]) "tap_tap"))))
        stocked_world
    = (Ok tt, (s', w'))
    /\ fs w' !! "cache/tap_tap.csv" = Some (CsvFile (rows_with [3; 5]%Z))
    /\ is_changed s' = true.
Proof.
  match goal with
  | |- exists s' w', run flush ?s ?w = _ /\ _ =>
      destruct (flush_writes_trace_csv s w (rows_with [3; 5]%Z))
        as (s' & w' & Hrun & Hcsv & _ & Hch & _)
  end.
  - reflexivity.
  - reflexivity.
  - simpl. compute_done.
  - reflexivity.
  - reflexivity.
  - exists s', w'. split; [exact Hrun|].
    destruct Hcsv as [Hcsv _]; [reflexivity|].
    split; [exact Hcsv|exact Hch].
Defined.
